(** * CCtoken: the carbon-credit ledger and marketplace contract

    A shallow embedding of the Solidity contract [CCtoken] (an ERC20 token
    that is also [Ownable] and a [ReentrancyGuard]) together with the
    properties of its meter attestation, minting, order book and
    settlement paths.

    Conventions.
    - [uint256] and [address] values are integers of [Z]; Solidity 0.8
      arithmetic is checked, so every [+], [-], [*] and [/] of the source
      is a computation that reverts with a panic when the result leaves
      the 256-bit range (or the divisor is zero).  The [unchecked] blocks
      of the token base wrap around, and the wrap is written out.
    - Storage mappings are finite maps read with default zero.
    - A function body is a computation over the contract storage that may
      revert half-way; [transact] is the call boundary of the EVM: a
      reverted call leaves the storage as it was before the call.
    - The low-level [call] that forwards the payment to a seller is an
      answer of the environment: whether the recipient accepted.  What
      the recipient does with the control it receives is not part of the
      model, and neither are the ether balances: the storage of the
      contract and its event log are. *)

From stdpp Require Import gmap list fin_maps strings.
From Stdlib Require Import ZArith Lia.

Local Open Scope Z_scope.

(** ** Machine integers *)

(** Both are plain integers; the names only document the Solidity type. *)
Abbreviation address := Z (only parsing).
Abbreviation uint256 := Z (only parsing).

Definition MAX_UINT256 : Z := 2 ^ 256 - 1.
Definition is_uint256 (x : Z) : Prop := 0 <= x <= MAX_UINT256.
Definition is_address (a : Z) : Prop := 0 <= a < 2 ^ 160.

(** The fixed-point unit of a credit, [1e18] in the source. *)
Definition SCALE : Z := 10 ^ 18.

(** ** Failures

    One constructor per kind of failure; the comment gives the [require]
    string (or the panic) of the source that raises it. *)

Inductive Error : Type :=
| Unauthorized            (* "Device not registered"; the owner check *)
| InvalidAmount           (* "... must be greater than 0", "Invalid purchase amount" *)
| DuplicateAttestation    (* "Data already logged for this timestamp ..." *)
| NoAttestation           (* "No smart meter data for this timestamp" *)
| ClaimExceedsAttested    (* "Claim exceeds recorded energy" *)
| BelowMintingThreshold   (* "Energy produced is insufficient for a single credit" *)
| InsufficientBalance     (* "Insufficient balance", "Not Enough CCT in account ..." *)
| InsufficientAllowance   (* "Contract not approved to spend seller's tokens" *)
| PriceBelowFloor         (* "Price per token can't be less than the floor ..." *)
| InvalidOrder            (* "Invalid order ID" *)
| OrderClosed             (* "Order already fulfilled" *)
| IncorrectPayment        (* "Incorrect payment amount" *)
| PriceChanged            (* "Price mismatch" *)
| SellerUnderfunded       (* "Not enough tokens in sellers account ..." *)
| PaymentForwardingFailed (* "Payment transfer to seller failed", "Payment to seller failed" *)
| ReentrantCall           (* the guard of nonReentrant *)
| EmptyBatch              (* "Empty order array" *)
| LengthMismatch          (* "Mismatched order data", "Mismatched price data" *)
| InvalidRecipient        (* a zero identity; "Not a valid address" *)
| MissingReason           (* "Reason must be provided" *)
| PanicOverflow           (* checked arithmetic left the 256-bit range *)
| PanicDivisionByZero
| PanicIndex.             (* array index out of bounds *)

#[global] Instance Error_eq_dec : EqDecision Error.
Proof. solve_decision. Defined.

Inductive Result (A : Type) : Type :=
| Ok (a : A)
| Revert (e : Error).

Arguments Ok {A} a.
Arguments Revert {A} e.

(** ** Events *)

Inductive Event : Type :=
| Transfer (from to : address) (value : uint256)
| Approval (owner spender : address) (value : uint256)
| OwnershipTransferred (previousOwner newOwner : address)
| SmartMeterDataLogged (producer : address) (timestamp energyProduced : uint256) (device : address)
| CarbonCreditsMinted (producer : address) (energyProduced creditsMinted : uint256)
| SellOrderPlaced (orderId : uint256) (seller : address) (amount pricePerToken : uint256)
| SellOrderFulfilled (orderId : uint256) (buyer : address) (amount totalPaid : uint256)
| CreditsBurnedWithReason (account : address) (amount : uint256) (why : string)
| DeviceRegistered (device : address)
| DeviceDeregistered (device : address)
| CCTMintedByOwner (account : address) (amountMinted : uint256)
| BatchOrdersFulfilled (buyer : address) (orderIds : list uint256) (totalCost : uint256).

(** ** Storage *)

Record SellOrder : Type := mkOrder {
  seller : address;
  amount : uint256;
  pricePerToken : uint256;
  fulfilled : bool
}.

Record State : Type := mkState {
  (* ERC20 *)
  _balances : gmap Z Z;
  _allowances : gmap (Z * Z) Z;
  _totalSupply : uint256;
  (* Ownable *)
  _owner : address;
  (* ReentrancyGuard: [true] is ENTERED *)
  _status : bool;
  (* CCtoken *)
  ENERGY_TO_CREDIT_CONVERSION : uint256;
  GovtWallet : address;
  FloorPricePerToken : uint256;
  smartMeterData : gmap (Z * Z) Z;
  registeredDevices : gmap Z bool;
  sellOrders : list SellOrder;
  (* the event log, newest first *)
  events : list Event
}.

Definition upd_balances (f : gmap Z Z -> gmap Z Z) (s : State) : State :=
  mkState (f (_balances s)) (_allowances s) (_totalSupply s) (_owner s) (_status s)
    (ENERGY_TO_CREDIT_CONVERSION s) (GovtWallet s) (FloorPricePerToken s)
    (smartMeterData s) (registeredDevices s) (sellOrders s) (events s).

Definition upd_allowances (f : gmap (Z * Z) Z -> gmap (Z * Z) Z) (s : State) : State :=
  mkState (_balances s) (f (_allowances s)) (_totalSupply s) (_owner s) (_status s)
    (ENERGY_TO_CREDIT_CONVERSION s) (GovtWallet s) (FloorPricePerToken s)
    (smartMeterData s) (registeredDevices s) (sellOrders s) (events s).

Definition set_totalSupply (v : Z) (s : State) : State :=
  mkState (_balances s) (_allowances s) v (_owner s) (_status s)
    (ENERGY_TO_CREDIT_CONVERSION s) (GovtWallet s) (FloorPricePerToken s)
    (smartMeterData s) (registeredDevices s) (sellOrders s) (events s).

Definition set_owner (a : address) (s : State) : State :=
  mkState (_balances s) (_allowances s) (_totalSupply s) a (_status s)
    (ENERGY_TO_CREDIT_CONVERSION s) (GovtWallet s) (FloorPricePerToken s)
    (smartMeterData s) (registeredDevices s) (sellOrders s) (events s).

Definition set_status (b : bool) (s : State) : State :=
  mkState (_balances s) (_allowances s) (_totalSupply s) (_owner s) b
    (ENERGY_TO_CREDIT_CONVERSION s) (GovtWallet s) (FloorPricePerToken s)
    (smartMeterData s) (registeredDevices s) (sellOrders s) (events s).

Definition set_ratio (v : Z) (s : State) : State :=
  mkState (_balances s) (_allowances s) (_totalSupply s) (_owner s) (_status s)
    v (GovtWallet s) (FloorPricePerToken s)
    (smartMeterData s) (registeredDevices s) (sellOrders s) (events s).

Definition set_govtWallet (a : address) (s : State) : State :=
  mkState (_balances s) (_allowances s) (_totalSupply s) (_owner s) (_status s)
    (ENERGY_TO_CREDIT_CONVERSION s) a (FloorPricePerToken s)
    (smartMeterData s) (registeredDevices s) (sellOrders s) (events s).

Definition set_floorPrice (v : Z) (s : State) : State :=
  mkState (_balances s) (_allowances s) (_totalSupply s) (_owner s) (_status s)
    (ENERGY_TO_CREDIT_CONVERSION s) (GovtWallet s) v
    (smartMeterData s) (registeredDevices s) (sellOrders s) (events s).

Definition upd_meter (f : gmap (Z * Z) Z -> gmap (Z * Z) Z) (s : State) : State :=
  mkState (_balances s) (_allowances s) (_totalSupply s) (_owner s) (_status s)
    (ENERGY_TO_CREDIT_CONVERSION s) (GovtWallet s) (FloorPricePerToken s)
    (f (smartMeterData s)) (registeredDevices s) (sellOrders s) (events s).

Definition upd_devices (f : gmap Z bool -> gmap Z bool) (s : State) : State :=
  mkState (_balances s) (_allowances s) (_totalSupply s) (_owner s) (_status s)
    (ENERGY_TO_CREDIT_CONVERSION s) (GovtWallet s) (FloorPricePerToken s)
    (smartMeterData s) (f (registeredDevices s)) (sellOrders s) (events s).

Definition upd_orders (f : list SellOrder -> list SellOrder) (s : State) : State :=
  mkState (_balances s) (_allowances s) (_totalSupply s) (_owner s) (_status s)
    (ENERGY_TO_CREDIT_CONVERSION s) (GovtWallet s) (FloorPricePerToken s)
    (smartMeterData s) (registeredDevices s) (f (sellOrders s)) (events s).

Definition add_event (e : Event) (s : State) : State :=
  mkState (_balances s) (_allowances s) (_totalSupply s) (_owner s) (_status s)
    (ENERGY_TO_CREDIT_CONVERSION s) (GovtWallet s) (FloorPricePerToken s)
    (smartMeterData s) (registeredDevices s) (sellOrders s) (e :: events s).

(** Mapping reads: an absent key reads as zero (or [false]). *)
Definition balance (s : State) (a : address) : Z := default 0 (_balances s !! a).
Definition allowed (s : State) (o sp : address) : Z := default 0 (_allowances s !! (o, sp)).
Definition meter (s : State) (producer : address) (t : Z) : Z :=
  default 0 (smartMeterData s !! (producer, t)).
Definition registered (s : State) (d : address) : bool :=
  default false (registeredDevices s !! d).

(** ** Computations over the storage *)

Definition Tx (A : Type) : Type := State -> Result A * State.

Definition ret {A} (a : A) : Tx A := fun s => (Ok a, s).

Definition bind {A B} (m : Tx A) (k : A -> Tx B) : Tx B :=
  fun s => match m s with
           | (Ok a, s') => k a s'
           | (Revert e, s') => (Revert e, s')
           end.

Definition revert {A} (e : Error) : Tx A := fun s => (Revert e, s).

Definition get : Tx State := fun s => (Ok s, s).

Definition modify (f : State -> State) : Tx unit := fun s => (Ok tt, f s).

Definition require (b : bool) (e : Error) : Tx unit :=
  if b then ret tt else revert e.

Definition emit (e : Event) : Tx unit := modify (add_event e).

Notation "'let!' x ':=' m 'in' k" := (bind m (fun x => k))
  (at level 10, x name, m at level 100, k at level 200, only parsing).
Notation "m >> k" := (bind m (fun _ => k))
  (at level 90, right associativity, only parsing).

(** The call boundary: a reverted call restores the storage it started from. *)
Definition transact {A} (m : Tx A) : Tx A :=
  fun s => match m s with
           | (Ok a, s') => (Ok a, s')
           | (Revert e, _) => (Revert e, s)
           end.

(** Checked arithmetic of Solidity 0.8. *)
Definition checked_add (a b : Z) : Tx Z :=
  if a + b <=? MAX_UINT256 then ret (a + b) else revert PanicOverflow.

Definition checked_sub (a b : Z) : Tx Z :=
  if b <=? a then ret (a - b) else revert PanicOverflow.

Definition checked_mul (a b : Z) : Tx Z :=
  if a * b <=? MAX_UINT256 then ret (a * b) else revert PanicOverflow.

Definition checked_div (a b : Z) : Tx Z :=
  if b =? 0 then revert PanicDivisionByZero else ret (a / b).

(** [unchecked { a + b }] and [unchecked { a - b }]. *)
Definition wrap (x : Z) : Z := x mod 2 ^ 256.

(** [for (uint256 i = 0; i < n; i++)] with the loop's local accumulator. *)
Fixpoint for_from {A} (n i : nat) (acc : A) (body : nat -> A -> Tx A) : Tx A :=
  match n with
  | O => ret acc
  | S n' => let! acc' := body i acc in for_from n' (S i) acc' body
  end.

Definition for_range {A} (n : nat) (acc : A) (body : nat -> A -> Tx A) : Tx A :=
  for_from n 0 acc body.

(** Reading a calldata array; an index out of range panics. *)
Definition index (l : list Z) (i : nat) : Tx Z :=
  match l !! i with
  | Some x => ret x
  | None => revert PanicIndex
  end.

(** ** The token ledger (ERC20)

    The base contract comes from the OpenZeppelin library the source
    imports; its text is not part of the repository. *)

(** Modelled from the spec: the Ledger of section 4.4 (the imported ERC20
    base is absent from the sources).  [balanceOf] is the pure lookup. *)
Definition balanceOf (a : address) : Tx uint256 :=
  let! s := get in ret (balance s a).

(** Modelled from the spec: the allowance lookup of the imported ERC20 base
    (the pre-authorisation of section 4.5). *)
Definition allowance (o sp : address) : Tx uint256 :=
  let! s := get in ret (allowed s o sp).

(** Modelled from the spec: the single balance-moving primitive of the
    imported ERC20 base, by which [mint], [burn] and [transfer] of section
    4.4 are defined.  Zero as [from] is a mint, zero as [to] is a burn:
    the supply grows with a checked addition; the source balance
    must cover the value ([InsufficientBalance]); the remaining updates
    are unchecked (they wrap). *)
Definition _update (from to : address) (value : uint256) : Tx unit :=
  (if from =? 0 then
     let! s := get in
     let! t := checked_add (_totalSupply s) value in
     modify (set_totalSupply t)
   else
     let! fromBalance := balanceOf from in
     require (value <=? fromBalance) InsufficientBalance >>
     modify (upd_balances <[from := wrap (fromBalance - value)]>)) >>
  (if to =? 0 then
     modify (fun s => set_totalSupply (wrap (_totalSupply s - value)) s)
   else
     modify (fun s => upd_balances <[to := wrap (balance s to + value)]> s)) >>
  emit (Transfer from to value).

(** Modelled from the spec: [transfer] of section 4.4 (imported ERC20 base);
    a zero identity on either side fails [InvalidRecipient]. *)
Definition _transfer (from to : address) (value : uint256) : Tx unit :=
  require (negb (from =? 0)) InvalidRecipient >>
  require (negb (to =? 0)) InvalidRecipient >>
  _update from to value.

(** Modelled from the spec: [mint] of section 4.4 (imported ERC20 base). *)
Definition _mint (account : address) (value : uint256) : Tx unit :=
  require (negb (account =? 0)) InvalidRecipient >>
  _update 0 account value.

(** Modelled from the spec: [burn] of section 4.4 (imported ERC20 base). *)
Definition _burn (account : address) (value : uint256) : Tx unit :=
  require (negb (account =? 0)) InvalidRecipient >>
  _update account 0 value.

(** Modelled from the spec: setting an allowance in the imported ERC20
    base (the pre-authorisation that section 4.5 relies on). *)
Definition _approve (o sp : address) (value : uint256) (emitEvent : bool) : Tx unit :=
  require (negb (o =? 0)) InvalidRecipient >>
  require (negb (sp =? 0)) InvalidRecipient >>
  modify (upd_allowances <[(o, sp) := value]>) >>
  (if emitEvent then emit (Approval o sp value) else ret tt).

(** Modelled from the spec: consuming an allowance in the imported ERC20
    base; an allowance of the maximal value is never reduced. *)
Definition _spendAllowance (o sp : address) (value : uint256) : Tx unit :=
  let! currentAllowance := allowance o sp in
  if currentAllowance <? MAX_UINT256 then
    require (value <=? currentAllowance) InsufficientAllowance >>
    _approve o sp (wrap (currentAllowance - value)) false
  else ret tt.

(** The caller of a function: [msg.sender], and [address(this)]. *)
Record Ctx : Type := mkCtx {
  this : address;
  sender : address
}.

(** What the environment answers when the [k]-th payment of a call is
    forwarded to [recipient] with [value]. *)
Definition Forward : Type := nat -> address -> uint256 -> bool.

(** Modelled from the spec: the public [transfer] of the imported ERC20 base. *)
Definition transfer (c : Ctx) (to : address) (value : uint256) : Tx bool :=
  _transfer (sender c) to value >> ret true.

(** Modelled from the spec: the public [approve] of the imported ERC20 base. *)
Definition approve (c : Ctx) (sp : address) (value : uint256) : Tx bool :=
  _approve (sender c) sp value true >> ret true.

(** Modelled from the spec: the public [transferFrom] of the imported
    ERC20 base. *)
Definition transferFrom (c : Ctx) (from to : address) (value : uint256) : Tx bool :=
  _spendAllowance from (sender c) value >>
  _transfer from to value >> ret true.

(** ** Ownable and ReentrancyGuard *)

(** Modelled from the spec: the administrator check of section 4.1 (the
    imported Ownable base is absent from the sources). *)
Definition onlyOwner (c : Ctx) : Tx unit :=
  let! s := get in require (sender c =? _owner s) Unauthorized.

(** Modelled from the spec: handing the administrative identity over
    (imported Ownable base). *)
Definition transferOwnership (c : Ctx) (newOwner : address) : Tx unit :=
  onlyOwner c >>
  require (negb (newOwner =? 0)) InvalidRecipient >>
  let! s := get in
  modify (set_owner newOwner) >>
  emit (OwnershipTransferred (_owner s) newOwner).

(** Modelled from the spec: giving the administrative identity up
    (imported Ownable base). *)
Definition renounceOwnership (c : Ctx) : Tx unit :=
  onlyOwner c >>
  let! s := get in
  modify (set_owner 0) >>
  emit (OwnershipTransferred (_owner s) 0).

(** Modelled from the spec: the non-reentrant section of section 4.6 (the
    imported ReentrancyGuard base is absent from the sources): nested
    entry is rejected, and the flag is released when the body returns. *)
Definition nonReentrant {A} (body : Tx A) : Tx A :=
  let! s := get in
  require (negb (_status s)) ReentrantCall >>
  modify (set_status true) >>
  let! r := body in
  modify (set_status false) >>
  ret r.

(** ** The contract *)

(** Access to one element of the [sellOrders] array through a storage
    reference: every read goes to the storage of the moment. *)
Definition order_at (orderId : uint256) : Tx SellOrder :=
  let! s := get in
  match sellOrders s !! Z.to_nat orderId with
  | Some o => ret o
  | None => revert PanicIndex
  end.

Definition set_amount (a : uint256) (o : SellOrder) : SellOrder :=
  mkOrder (seller o) a (pricePerToken o) (fulfilled o).

Definition set_fulfilled (b : bool) (o : SellOrder) : SellOrder :=
  mkOrder (seller o) (amount o) (pricePerToken o) b.

Definition write_order (orderId : uint256) (f : SellOrder -> SellOrder) : Tx unit :=
  let! o := order_at orderId in
  modify (upd_orders <[Z.to_nat orderId := f o]>).

(** [order.amount -= amountToBuy; if (order.amount == 0) order.fulfilled = true;] *)
Definition take_from_order (orderId amountToBuy : uint256) : Tx unit :=
  let! o := order_at orderId in
  let! rest := checked_sub (amount o) amountToBuy in
  write_order orderId (set_amount rest) >>
  let! o' := order_at orderId in
  if amount o' =? 0 then write_order orderId (set_fulfilled true) else ret tt.

Definition registerDevice (c : Ctx) (device : address) : Tx unit :=
  onlyOwner c >>
  modify (upd_devices <[device := true]>) >>
  emit (DeviceRegistered device).

Definition deregisterDevice (c : Ctx) (device : address) : Tx unit :=
  onlyOwner c >>
  modify (upd_devices <[device := false]>) >>
  emit (DeviceDeregistered device).

Definition changeEnergyToCreditRatio (c : Ctx) (newRatio : uint256) : Tx unit :=
  onlyOwner c >> modify (set_ratio newRatio).

Definition changeGovtWallet (c : Ctx) (newAddress : address) : Tx unit :=
  onlyOwner c >> modify (set_govtWallet newAddress).

Definition changeFloorPricePerToken (c : Ctx) (newPrice : uint256) : Tx unit :=
  onlyOwner c >> modify (set_floorPrice newPrice).

Definition logSmartMeterData (c : Ctx) (producer : address)
    (timestamp energyProduced : uint256) : Tx bool :=
  let! s := get in
  require (registered s (sender c)) Unauthorized >>
  require (0 <? energyProduced) InvalidAmount >>
  require (meter s producer timestamp =? 0) DuplicateAttestation >>
  modify (upd_meter <[(producer, timestamp) := energyProduced]>) >>
  emit (SmartMeterDataLogged producer timestamp energyProduced (sender c)) >>
  ret true.

Definition earnCarbonCredit (c : Ctx) (energyProduced timestamp : uint256) : Tx uint256 :=
  require (0 <? energyProduced) InvalidAmount >>
  let! s := get in
  let recordedEnergy := meter s (sender c) timestamp in
  require (0 <? recordedEnergy) NoAttestation >>
  require (energyProduced <=? recordedEnergy) ClaimExceedsAttested >>
  let! scaled := checked_mul energyProduced SCALE in
  let! creditsToMint := checked_div scaled (ENERGY_TO_CREDIT_CONVERSION s) in
  require (0 <? creditsToMint) BelowMintingThreshold >>
  let! s1 := get in
  let! rest := checked_sub (meter s1 (sender c) timestamp) energyProduced in
  modify (upd_meter <[(sender c, timestamp) := rest]>) >>
  _mint (sender c) creditsToMint >>
  emit (CarbonCreditsMinted (sender c) energyProduced creditsToMint) >>
  ret creditsToMint.

Definition placeSellOrder (c : Ctx) (amountToSell pricePerToken : uint256) : Tx uint256 :=
  let! s := get in
  require (FloorPricePerToken s <=? pricePerToken) PriceBelowFloor >>
  let! bal := balanceOf (sender c) in
  require (amountToSell <=? bal) InsufficientBalance >>
  let! allw := allowance (sender c) (this c) in
  require (amountToSell <=? allw) InsufficientAllowance >>
  modify (upd_orders (fun l => l ++ [mkOrder (sender c) amountToSell pricePerToken false])) >>
  let! s' := get in
  let! orderId := checked_sub (Z.of_nat (length (sellOrders s'))) 1 in
  emit (SellOrderPlaced orderId (sender c) amountToSell pricePerToken) >>
  ret orderId.

Definition fulfillSellOrder (c : Ctx) (value : uint256) (fwd : Forward)
    (orderId amountToBuy : uint256) : Tx bool :=
  nonReentrant (
    let! s := get in
    require (orderId <? Z.of_nat (length (sellOrders s))) InvalidOrder >>
    let! order := order_at orderId in
    require (negb (fulfilled order)) OrderClosed >>
    require ((0 <? amountToBuy) && (amountToBuy <=? amount order)) InvalidAmount >>
    let! product := checked_mul amountToBuy (pricePerToken order) in
    let! totalPrice := checked_div product SCALE in
    require (value =? totalPrice) IncorrectPayment >>
    let! bal := balanceOf (seller order) in
    require (amountToBuy <=? bal) SellerUnderfunded >>
    take_from_order orderId amountToBuy >>
    let! order' := order_at orderId in
    _transfer (seller order') (sender c) amountToBuy >>
    require (fwd O (seller order') value) PaymentForwardingFailed >>
    emit (SellOrderFulfilled orderId (sender c) amountToBuy value) >>
    ret true).

(** First pass of a batch: one iteration of the validation loop. *)
Definition batch_validate (orderIds amountsToBuy pricesPerToken : list uint256)
    (i : nat) (totalCost : uint256) : Tx uint256 :=
  let! orderId := index orderIds i in
  let! amountToBuy := index amountsToBuy i in
  let! price := index pricesPerToken i in
  let! s := get in
  require (orderId <? Z.of_nat (length (sellOrders s))) InvalidOrder >>
  let! order := order_at orderId in
  require (negb (fulfilled order)) OrderClosed >>
  require ((0 <? amountToBuy) && (amountToBuy <=? amount order)) InvalidAmount >>
  require (price =? pricePerToken order) PriceChanged >>
  let! product := checked_mul amountToBuy price in
  let! orderCost := checked_div product SCALE in
  checked_add totalCost orderCost.

(** Second pass: one iteration of the loop that updates the orders. *)
Definition batch_mutate (orderIds amountsToBuy : list uint256)
    (i : nat) (_ : unit) : Tx unit :=
  let! orderId := index orderIds i in
  let! amountToBuy := index amountsToBuy i in
  take_from_order orderId amountToBuy.

(** Third pass: one iteration of the loop that moves tokens and payments. *)
Definition batch_settle (c : Ctx) (fwd : Forward)
    (orderIds amountsToBuy pricesPerToken : list uint256)
    (i : nat) (_ : unit) : Tx unit :=
  let! orderId := index orderIds i in
  let! amountToBuy := index amountsToBuy i in
  let! price := index pricesPerToken i in
  let! order := order_at orderId in
  let! product := checked_mul amountToBuy price in
  let! orderCost := checked_div product SCALE in
  _transfer (seller order) (sender c) amountToBuy >>
  require (fwd i (seller order) orderCost) PaymentForwardingFailed >>
  emit (SellOrderFulfilled orderId (sender c) amountToBuy orderCost).

Definition fulfillBatchOrders (c : Ctx) (value : uint256) (fwd : Forward)
    (orderIds amountsToBuy pricesPerToken : list uint256) : Tx unit :=
  nonReentrant (
    require (0 <? Z.of_nat (length orderIds)) EmptyBatch >>
    require (Z.of_nat (length orderIds) =? Z.of_nat (length amountsToBuy)) LengthMismatch >>
    require (Z.of_nat (length orderIds) =? Z.of_nat (length pricesPerToken)) LengthMismatch >>
    let orderIdsLength := length orderIds in
    let! totalCost :=
      for_range orderIdsLength 0 (batch_validate orderIds amountsToBuy pricesPerToken) in
    require (totalCost =? value) IncorrectPayment >>
    for_range orderIdsLength tt (batch_mutate orderIds amountsToBuy) >>
    for_range orderIdsLength tt (batch_settle c fwd orderIds amountsToBuy pricesPerToken) >>
    emit (BatchOrdersFulfilled (sender c) orderIds totalCost)).

Definition OwnerburnCredits (c : Ctx) (account : address) (amount : uint256)
    (why : string) : Tx unit :=
  onlyOwner c >>
  require (0 <? Z.of_nat (String.length why)) MissingReason >>
  _burn account amount >>
  emit (CreditsBurnedWithReason account amount why).

Definition UtilizeCarbonCredit (c : Ctx) (amt : uint256) : Tx unit :=
  nonReentrant (
    require (0 <? amt) InvalidAmount >>
    let! bal := balanceOf (sender c) in
    require (amt <=? bal) InsufficientBalance >>
    _burn (sender c) amt).

Definition mintCCT (c : Ctx) (account : address) (amount : uint256) : Tx unit :=
  onlyOwner c >>
  require (negb (account =? 0)) InvalidRecipient >>
  _mint account amount >>
  emit (CCTMintedByOwner account amount).

(** The storage right after deployment by [deployer]. *)
Definition deployed (deployer : address) : State :=
  mkState ∅ ∅ 0 deployer false
    100 0x0AfA610B923e7CF8DD4F0e929b5f0cd91C1A4d9e (10 ^ 7)
    ∅ ∅ [] [OwnershipTransferred 0 deployer].

(** ** Calls and traces *)

Inductive Call : Type :=
| call_registerDevice (device : address)
| call_deregisterDevice (device : address)
| call_changeEnergyToCreditRatio (newRatio : uint256)
| call_changeGovtWallet (newAddress : address)
| call_changeFloorPricePerToken (newPrice : uint256)
| call_logSmartMeterData (producer : address) (timestamp energyProduced : uint256)
| call_earnCarbonCredit (energyProduced timestamp : uint256)
| call_placeSellOrder (amountToSell pricePerToken : uint256)
| call_fulfillSellOrder (value : uint256) (fwd : Forward) (orderId amountToBuy : uint256)
| call_fulfillBatchOrders (value : uint256) (fwd : Forward)
    (orderIds amountsToBuy pricesPerToken : list uint256)
| call_OwnerburnCredits (account : address) (amount : uint256) (why : string)
| call_UtilizeCarbonCredit (amt : uint256)
| call_mintCCT (account : address) (amount : uint256)
| call_transfer (to : address) (value : uint256)
| call_approve (spender : address) (value : uint256)
| call_transferFrom (from to : address) (value : uint256)
| call_transferOwnership (newOwner : address)
| call_renounceOwnership.

Definition run (c : Ctx) (k : Call) : Tx unit :=
  match k with
  | call_registerDevice d => registerDevice c d
  | call_deregisterDevice d => deregisterDevice c d
  | call_changeEnergyToCreditRatio r => changeEnergyToCreditRatio c r
  | call_changeGovtWallet a => changeGovtWallet c a
  | call_changeFloorPricePerToken p => changeFloorPricePerToken c p
  | call_logSmartMeterData p t e => logSmartMeterData c p t e >> ret tt
  | call_earnCarbonCredit e t => earnCarbonCredit c e t >> ret tt
  | call_placeSellOrder a p => placeSellOrder c a p >> ret tt
  | call_fulfillSellOrder v fwd i a => fulfillSellOrder c v fwd i a >> ret tt
  | call_fulfillBatchOrders v fwd ids amts prices =>
      fulfillBatchOrders c v fwd ids amts prices
  | call_OwnerburnCredits a v why => OwnerburnCredits c a v why
  | call_UtilizeCarbonCredit a => UtilizeCarbonCredit c a
  | call_mintCCT a v => mintCCT c a v
  | call_transfer to v => transfer c to v >> ret tt
  | call_approve sp v => approve c sp v >> ret tt
  | call_transferFrom from to v => transferFrom c from to v >> ret tt
  | call_transferOwnership o => transferOwnership c o
  | call_renounceOwnership => renounceOwnership c
  end.

(** Well-formed calls: the caller is a non-zero address and every
    argument fits its Solidity type. *)
Definition valid_ctx (c : Ctx) : Prop :=
  is_address (this c) /\ is_address (sender c) /\ sender c <> 0.

Definition valid_args (k : Call) : Prop :=
  match k with
  | call_registerDevice d | call_deregisterDevice d => is_address d
  | call_changeEnergyToCreditRatio r => is_uint256 r
  | call_changeGovtWallet a => is_address a
  | call_changeFloorPricePerToken p => is_uint256 p
  | call_logSmartMeterData p t e => is_address p /\ is_uint256 t /\ is_uint256 e
  | call_earnCarbonCredit e t => is_uint256 e /\ is_uint256 t
  | call_placeSellOrder a p => is_uint256 a /\ is_uint256 p
  | call_fulfillSellOrder v _ i a => is_uint256 v /\ is_uint256 i /\ is_uint256 a
  | call_fulfillBatchOrders v _ ids amts prices =>
      is_uint256 v /\ Forall is_uint256 ids /\ Forall is_uint256 amts /\
      Forall is_uint256 prices
  | call_OwnerburnCredits a v _ => is_address a /\ is_uint256 v
  | call_UtilizeCarbonCredit a => is_uint256 a
  | call_mintCCT a v => is_address a /\ is_uint256 v
  | call_transfer to v => is_address to /\ is_uint256 v
  | call_approve sp v => is_address sp /\ is_uint256 v
  | call_transferFrom from to v => is_address from /\ is_address to /\ is_uint256 v
  | call_transferOwnership o => is_address o
  | call_renounceOwnership => True
  end.

Definition valid_call (ck : Ctx * Call) : Prop :=
  valid_ctx (fst ck) /\ valid_args (snd ck).

(** One external call: its outcome and the storage it leaves. *)
Definition step (ck : Ctx * Call) (s : State) : State :=
  snd (transact (run (fst ck) (snd ck)) s).

Definition exec (tr : list (Ctx * Call)) (s : State) : State :=
  fold_left (fun st ck => step ck st) tr s.

Definition reachable (s : State) : Prop :=
  exists deployer tr,
    is_address deployer /\ Forall valid_call tr /\ s = exec tr (deployed deployer).

(** ** Quantities the properties speak about *)

(** The sum of all account balances. *)
Definition sum_balances (m : gmap Z Z) : Z :=
  map_fold (fun _ v acc => v + acc) 0 m.

(** Cumulative minted and burned amounts, read off the event log: a
    [Transfer] from the zero identity is a mint, one to it is a burn. *)
Definition minted_by (e : Event) : Z :=
  match e with
  | Transfer from _ v => if from =? 0 then v else 0
  | _ => 0
  end.

Definition burned_by (e : Event) : Z :=
  match e with
  | Transfer _ to v => if to =? 0 then v else 0
  | _ => 0
  end.

Definition totalMinted (s : State) : Z := foldr (fun e acc => minted_by e + acc) 0 (events s).
Definition totalBurned (s : State) : Z := foldr (fun e acc => burned_by e + acc) 0 (events s).

(** An order after [amt] units of it were bought: what
    [order.amount -= amt; if (order.amount == 0) order.fulfilled = true]
    leaves in the array. *)
Definition taken (amt : uint256) (o : SellOrder) : SellOrder :=
  mkOrder (seller o) (amount o - amt) (pricePerToken o)
    (if amount o - amt =? 0 then true else fulfilled o).

(** What the first pass of a batch checks of one entry, on the storage
    [s]: the order exists and is open, the amount is positive and within
    the order's remaining amount, and the submitted price is the order's. *)
Definition entry_valid (s : State) (orderId amountToBuy price : uint256) : Prop :=
  orderId < Z.of_nat (length (sellOrders s)) /\
  exists o, sellOrders s !! Z.to_nat orderId = Some o /\
            fulfilled o = false /\
            0 < amountToBuy <= amount o /\
            price = pricePerToken o.

(** The entries [i, i + n) of a batch pass every check of the first pass,
    the products fitting 256 bits. *)
Definition entries_valid (s : State) (ids amts prices : list uint256) (i n : nat) : Prop :=
  forall j, (i <= j < i + n)%nat ->
  exists id amt price,
    ids !! j = Some id /\ amts !! j = Some amt /\ prices !! j = Some price /\
    entry_valid s id amt price /\ amt * price <= MAX_UINT256.

(** The cost of the entries [i, i + n) of a batch, as the first pass adds
    it up: the sum of [amountsToBuy[j] * pricesPerToken[j] / 1e18]. *)
Fixpoint costs_from (amts prices : list uint256) (i n : nat) : Z :=
  match n with
  | O => 0
  | S n' => default 0 (amts !! i) * default 0 (prices !! i) / SCALE
            + costs_from amts prices (S i) n'
  end.

(** ** Invariants and frames *)

(** The ledger invariant: balances are unsigned, they add up to the
    tracked supply, the supply fits 256 bits and is what the log says. *)
Record ledger_ok (s : State) : Prop := mkLedgerOk {
  bal_nonneg : forall a v, _balances s !! a = Some v -> 0 <= v;
  supply_sum : sum_balances (_balances s) = _totalSupply s;
  supply_max : _totalSupply s <= MAX_UINT256;
  supply_log : totalMinted s - totalBurned s = _totalSupply s
}.

(** Orders and allowances hold values of their Solidity types, and an
    order's seller is a caller, hence not the zero identity. *)
Record book_ok (s : State) : Prop := mkBookOk {
  orders_wf : forall i o, sellOrders s !! i = Some o ->
                seller o <> 0 /\ 0 <= amount o /\ 0 <= pricePerToken o;
  allowances_nonneg : forall k v, _allowances s !! k = Some v -> 0 <= v
}.

(** Frames: what a run may have changed.  [only_orders s s'] says that
    [s'] differs from [s] in the order array at most; [only_ledger s s']
    that it differs in balances, supply and event log at most. *)
Definition only_orders (s s' : State) : Prop :=
  s' = upd_orders (fun _ => sellOrders s') s.

Definition only_ledger (s s' : State) : Prop :=
  s' = mkState (_balances s') (_allowances s) (_totalSupply s') (_owner s) (_status s)
         (ENERGY_TO_CREDIT_CONVERSION s) (GovtWallet s) (FloorPricePerToken s)
         (smartMeterData s) (registeredDevices s) (sellOrders s) (events s').

(** ** Worked scenarios

    The contract sits at address 999; the owner is account 1, the
    registered device account 2, the producer (and seller) account 3 and
    the buyer account 4. *)

Definition as_owner : Ctx := mkCtx 999 1.
Definition as_device : Ctx := mkCtx 999 2.
Definition as_producer : Ctx := mkCtx 999 3.
Definition as_buyer : Ctx := mkCtx 999 4.

(** Sellers that accept every forwarded payment, none, or the first of a
    call only. *)
Definition accepting : Forward := fun _ _ _ => true.
Definition rejecting : Forward := fun _ _ _ => false.
Definition accepting_first : Forward := fun k _ _ => Nat.eqb k 0.

(** The owner registers the device; the device attests 500 kWh for the
    producer at bucket 7; the producer claims 300 kWh, authorises the
    contract and offers 1000 units at price [2e18]; the buyer takes 400
    units alone and the other 600 in a batch, then retires 100; the owner
    mints to and burns from account 5; the buyer sends 10 to account 5. *)
Definition scenario : list (Ctx * Call) :=
  [ (as_owner, call_registerDevice 2);
    (as_device, call_logSmartMeterData 3 7 500);
    (as_producer, call_earnCarbonCredit 300 7);
    (as_producer, call_approve 999 (3 * 10 ^ 18));
    (as_producer, call_placeSellOrder 1000 (2 * 10 ^ 18));
    (as_buyer, call_fulfillSellOrder 800 accepting 0 400);
    (as_buyer, call_fulfillBatchOrders 1200 accepting [0] [600] [2 * 10 ^ 18]);
    (as_buyer, call_UtilizeCarbonCredit 100);
    (as_owner, call_mintCCT 5 50);
    (as_owner, call_OwnerburnCredits 5 20 "audit");
    (as_buyer, call_transfer 5 10) ].

Definition after_scenario : State := exec scenario (deployed 1).

(** A bucket claimed in full: the device attests 500 kWh for the producer
    at bucket 7 and the producer claims all 500. *)
Definition exhaustion_scenario : list (Ctx * Call) :=
  [ (as_owner, call_registerDevice 2);
    (as_device, call_logSmartMeterData 3 7 500);
    (as_producer, call_earnCarbonCredit 500 7) ].

Definition after_exhaustion : State := exec exhaustion_scenario (deployed 1).

(** Two open orders of one seller: account 3 receives 100 units and
    offers 10 at price [1e18] and 5 at price [2e18]. *)
Definition two_orders_scenario : list (Ctx * Call) :=
  [ (as_owner, call_mintCCT 3 100);
    (as_producer, call_approve 999 100);
    (as_producer, call_placeSellOrder 10 (10 ^ 18));
    (as_producer, call_placeSellOrder 5 (2 * 10 ^ 18)) ].

Definition after_two_orders : State := exec two_orders_scenario (deployed 1).

(** An order whose amount times price exceeds 256 bits: the owner mints
    [2^200] units to account 3, who offers them all at price [2^100]. *)
Definition huge_order_scenario : list (Ctx * Call) :=
  [ (as_owner, call_mintCCT 3 (2 ^ 200));
    (as_producer, call_approve 999 (2 ^ 200));
    (as_producer, call_placeSellOrder (2 ^ 200) (2 ^ 100)) ].

Definition after_huge_order : State := exec huge_order_scenario (deployed 1).

(** An order at the floor price whose seller then moved most of the
    balance away: account 3 receives 2000 units, offers 1000 of them at
    [1e7] and sends 1500 to account 5. *)
Definition dust_order_scenario : list (Ctx * Call) :=
  [ (as_owner, call_mintCCT 3 2000);
    (as_producer, call_approve 999 2000);
    (as_producer, call_placeSellOrder 1000 (10 ^ 7));
    (as_producer, call_transfer 5 1500) ].

Definition after_dust_order : State := exec dust_order_scenario (deployed 1).

(** ** Proof automation *)

(** Unfold the primitives of a computation, leaving the ledger moves and
    the loops folded. *)
Ltac tx_unfold :=
  unfold transact, nonReentrant, balanceOf, allowance, onlyOwner, emit,
    checked_add, checked_sub, checked_mul, checked_div,
    require, bind, ret, revert, get, modify in *.

(** Compute through record projections and decided tests, leaving
    arithmetic, lookups and ledger moves as they are. *)
Ltac tx_eval :=
  cbn -[MAX_UINT256 SCALE Z.mul Z.div Z.add Z.sub Z.leb Z.ltb Z.eqb Z.of_nat Z.to_nat
        wrap balance meter allowed registered lookup insert
        _transfer _mint _burn take_from_order taken].

(** Decide one comparison of the goal and keep it as an arithmetic fact. *)
Ltac zcase :=
  match goal with
  | |- context [?a <=? ?b] => destruct (Z.leb_spec a b)
  | |- context [?a <? ?b] => destruct (Z.ltb_spec a b)
  | |- context [?a =? ?b] => destruct (Z.eqb_spec a b)
  end.

(** Turn the boolean tests among the hypotheses into arithmetic facts. *)
Ltac zbool :=
  repeat match goal with
  | H : (_ <=? _) = true |- _ => apply Z.leb_le in H
  | H : (_ <=? _) = false |- _ => apply Z.leb_gt in H
  | H : (_ <? _) = true |- _ => apply Z.ltb_lt in H
  | H : (_ <? _) = false |- _ => apply Z.ltb_ge in H
  | H : (_ =? _) = true |- _ => apply Z.eqb_eq in H
  | H : (_ =? _) = false |- _ => apply Z.eqb_neq in H
  | H : negb _ = true |- _ => apply negb_true_iff in H
  | H : negb _ = false |- _ => apply negb_false_iff in H
  | H : (_ && _) = true |- _ => apply andb_true_iff in H as [? ?]
  end.

(** ** Further classifications of calls *)

(** The calls of the contract that carry the [onlyOwner] modifier. *)
Definition owner_only (k : Call) : bool :=
  match k with
  | call_registerDevice _ | call_deregisterDevice _
  | call_changeEnergyToCreditRatio _ | call_changeGovtWallet _
  | call_changeFloorPricePerToken _
  | call_OwnerburnCredits _ _ _ | call_mintCCT _ _ => true
  | _ => false
  end.



(** The two orders of [two_orders_scenario], after the seller has taken
    back the allowance given to the contract. *)
Definition revoked_scenario : list (Ctx * Call) :=
  two_orders_scenario ++ [ (as_producer, call_approve 999 0) ].

Definition after_revocation : State := exec revoked_scenario (deployed 1).

(** How an order may differ from an earlier version of itself: same seller
    and price, no larger an amount, and a fulfilled flag that is never
    taken back. *)
Definition order_evolves (o o' : SellOrder) : Prop :=
  seller o' = seller o /\ pricePerToken o' = pricePerToken o /\
  amount o' <= amount o /\ (fulfilled o = true -> fulfilled o' = true).

(** An order is marked fulfilled only when nothing remains of it. *)
Definition closed_orders_empty (s : State) : Prop :=
  forall i o, sellOrders s !! i = Some o -> fulfilled o = true -> amount o = 0.

(** The orders of [s] are all found, evolved, in [s']. *)
Definition book_evolves (s s' : State) : Prop :=
  forall i o, sellOrders s !! i = Some o ->
  exists o', sellOrders s' !! i = Some o' /\ order_evolves o o'.

(** ** Independence of the government wallet *)



(** ** Who can move credits out of an account *)




(** * Properties *)

(** ** Running computations *)

Lemma bind_Ok {A B} (m : Tx A) (k : A -> Tx B) s b s' :
  bind m k s = (Ok b, s') ->
  exists a s1, m s = (Ok a, s1) /\ k a s1 = (Ok b, s').
Proof.
  unfold bind. destruct (m s) as [[a|e] s1]; [eauto | discriminate].
Qed.

Lemma ret_Ok {A} (a b : A) s s' : ret a s = (Ok b, s') -> b = a /\ s' = s.
Proof. unfold ret. intros [= -> ->]. auto. Qed.

Lemma get_Ok s a s' : get s = (Ok a, s') -> a = s /\ s' = s.
Proof. unfold get. intros [= -> ->]. auto. Qed.

Lemma modify_Ok f s u s' : modify f s = (Ok u, s') -> s' = f s.
Proof. unfold modify. intros [= _ ->]. auto. Qed.

Lemma require_Ok b e s u s' : require b e s = (Ok u, s') -> b = true /\ s' = s.
Proof. unfold require. destruct b; [intros [= _ ->]; auto | discriminate]. Qed.

Lemma checked_add_Ok a b s r s' :
  checked_add a b s = (Ok r, s') -> r = a + b /\ a + b <= MAX_UINT256 /\ s' = s.
Proof. unfold checked_add. zcase; [intros [= <- <-]; auto | discriminate]. Qed.

Lemma checked_sub_Ok a b s r s' :
  checked_sub a b s = (Ok r, s') -> r = a - b /\ b <= a /\ s' = s.
Proof. unfold checked_sub. zcase; [intros [= <- <-]; auto | discriminate]. Qed.

Lemma checked_mul_Ok a b s r s' :
  checked_mul a b s = (Ok r, s') -> r = a * b /\ a * b <= MAX_UINT256 /\ s' = s.
Proof. unfold checked_mul. zcase; [intros [= <- <-]; auto | discriminate]. Qed.

Lemma checked_div_Ok a b s r s' :
  checked_div a b s = (Ok r, s') -> r = a / b /\ b <> 0 /\ s' = s.
Proof. unfold checked_div. zcase; [discriminate | intros [= <- <-]; auto]. Qed.

Lemma balanceOf_Ok a s r s' : balanceOf a s = (Ok r, s') -> r = balance s a /\ s' = s.
Proof. unfold balanceOf, bind, get, ret. intros [= <- <-]. auto. Qed.

Lemma allowance_Ok o sp s r s' :
  allowance o sp s = (Ok r, s') -> r = allowed s o sp /\ s' = s.
Proof. unfold allowance, bind, get, ret. intros [= <- <-]. auto. Qed.

Lemma index_Ok l i s r s' : index l i s = (Ok r, s') -> l !! i = Some r /\ s' = s.
Proof. unfold index. destruct (l !! i); [intros [= <- <-]; auto | discriminate]. Qed.

Lemma order_at_Ok i s o s' :
  order_at i s = (Ok o, s') -> sellOrders s !! Z.to_nat i = Some o /\ s' = s.
Proof.
  unfold order_at, bind, get. destruct (sellOrders s !! Z.to_nat i);
    [intros [= <- <-]; auto | discriminate].
Qed.

Lemma transact_Ok {A} (m : Tx A) s a s' :
  transact m s = (Ok a, s') -> m s = (Ok a, s').
Proof.
  unfold transact. destruct (m s) as [[b|e] s1]; congruence.
Qed.

Lemma transact_Revert {A} (m : Tx A) s e :
  fst (transact m s) = Revert e -> snd (transact m s) = s.
Proof.
  unfold transact. destruct (m s) as [[b|e'] s1]; simpl; [discriminate | auto].
Qed.

(** Take a successful run apart into the runs of its steps. *)
Ltac tx_inv :=
  repeat (cbv beta zeta in *;
    match goal with
    | H : bind _ _ _ = (Ok _, _) |- _ =>
        let a := fresh "a" in let s := fresh "s" in let H1 := fresh "Hrun" in
        apply bind_Ok in H as (a & s & H1 & H)
    | H : ret _ _ = (Ok _, _) |- _ => apply ret_Ok in H as [? ?]; subst
    | H : get _ = (Ok _, _) |- _ => apply get_Ok in H as [? ?]; subst
    | H : modify _ _ = (Ok _, _) |- _ => apply modify_Ok in H; subst
    | H : emit _ _ = (Ok _, _) |- _ => apply modify_Ok in H; subst
    | H : require _ _ _ = (Ok _, _) |- _ => apply require_Ok in H as [? ?]; subst
    | H : revert _ _ = (Ok _, _) |- _ => discriminate H
    | H : checked_add _ _ _ = (Ok _, _) |- _ => apply checked_add_Ok in H as (? & ? & ?); subst
    | H : checked_sub _ _ _ = (Ok _, _) |- _ => apply checked_sub_Ok in H as (? & ? & ?); subst
    | H : checked_mul _ _ _ = (Ok _, _) |- _ => apply checked_mul_Ok in H as (? & ? & ?); subst
    | H : checked_div _ _ _ = (Ok _, _) |- _ => apply checked_div_Ok in H as (? & ? & ?); subst
    | H : balanceOf _ _ = (Ok _, _) |- _ => apply balanceOf_Ok in H as [? ?]; subst
    | H : allowance _ _ _ = (Ok _, _) |- _ => apply allowance_Ok in H as [? ?]; subst
    | H : index _ _ _ = (Ok _, _) |- _ => apply index_Ok in H as [? ?]; subst
    | H : order_at _ _ = (Ok _, _) |- _ => apply order_at_Ok in H as [? ?]; subst
    | H : onlyOwner _ _ = (Ok _, _) |- _ => unfold onlyOwner in H
    | H : nonReentrant _ _ = (Ok _, _) |- _ => unfold nonReentrant in H
    | H : (if ?b then _ else _) _ = (Ok _, _) |- _ => destruct b eqn:?
    end).

(** ** Sums over the balance map *)

Lemma sum_balances_insert_fresh (m : gmap Z Z) k v :
  m !! k = None -> sum_balances (<[k:=v]> m) = v + sum_balances m.
Proof.
  intros Hk. unfold sum_balances.
  rewrite map_fold_insert_L; [reflexivity | intros; lia | exact Hk].
Qed.

Lemma sum_balances_delete (m : gmap Z Z) k x :
  m !! k = Some x -> sum_balances m = x + sum_balances (delete k m).
Proof.
  intros Hk. unfold sum_balances.
  rewrite (map_fold_delete_L _ _ k x m); [reflexivity | intros; lia | exact Hk].
Qed.

Lemma sum_balances_insert (m : gmap Z Z) k v :
  sum_balances (<[k:=v]> m) = sum_balances m - default 0 (m !! k) + v.
Proof.
  destruct (m !! k) as [x|] eqn:Hk; simpl.
  - rewrite (sum_balances_delete m k x Hk).
    rewrite <- (insert_delete_eq m k v).
    rewrite sum_balances_insert_fresh by apply lookup_delete_eq. lia.
  - rewrite sum_balances_insert_fresh by exact Hk. lia.
Qed.

Lemma sum_balances_nonneg (m : gmap Z Z) :
  (forall a v, m !! a = Some v -> 0 <= v) -> 0 <= sum_balances m.
Proof.
  induction m as [|k x m Hk IH] using map_ind; intros Hpos.
  - unfold sum_balances. rewrite map_fold_empty. lia.
  - rewrite sum_balances_insert_fresh by exact Hk.
    assert (0 <= x) by (apply (Hpos k); apply lookup_insert_eq).
    assert (0 <= sum_balances m).
    { apply IH. intros a v Ha. apply (Hpos a).
      rewrite lookup_insert_ne; [exact Ha | congruence]. }
    lia.
Qed.

Lemma sum_balances_bound (m : gmap Z Z) k :
  (forall a v, m !! a = Some v -> 0 <= v) ->
  0 <= default 0 (m !! k) <= sum_balances m.
Proof.
  intros Hpos. destruct (m !! k) as [x|] eqn:Hk; simpl.
  - rewrite (sum_balances_delete m k x Hk).
    assert (0 <= sum_balances (delete k m)).
    { apply sum_balances_nonneg. intros a v Ha.
      apply lookup_delete_Some in Ha as [_ Ha]. eauto. }
    specialize (Hpos k x Hk). lia.
  - split; [lia | apply sum_balances_nonneg, Hpos].
Qed.

Lemma sum_balances_bound2 (m : gmap Z Z) k1 k2 :
  (forall a v, m !! a = Some v -> 0 <= v) -> k1 <> k2 ->
  default 0 (m !! k1) + default 0 (m !! k2) <= sum_balances m.
Proof.
  intros Hpos Hne. destruct (m !! k1) as [x|] eqn:Hk; simpl.
  - rewrite (sum_balances_delete m k1 x Hk).
    assert (Hd : forall a v, delete k1 m !! a = Some v -> 0 <= v).
    { intros a v Ha. apply lookup_delete_Some in Ha as [_ Ha]. eauto. }
    pose proof (sum_balances_bound (delete k1 m) k2 Hd) as Hb.
    rewrite lookup_delete_ne in Hb by exact Hne. lia.
  - pose proof (sum_balances_bound m k2 Hpos). lia.
Qed.

(** ** The ledger primitive *)

Lemma wrap_small x : 0 <= x <= MAX_UINT256 -> wrap x = x.
Proof. unfold wrap, MAX_UINT256. intros. apply Z.mod_small. lia. Qed.

Lemma _mint_run account v s :
  account <> 0 ->
  _mint account v s =
    if _totalSupply s + v <=? MAX_UINT256 then
      (Ok tt, add_event (Transfer 0 account v)
                (upd_balances <[account := wrap (balance s account + v)]>
                   (set_totalSupply (_totalSupply s + v) s)))
    else (Revert PanicOverflow, s).
Proof.
  intros Ha. unfold _mint, _update. tx_unfold.
  destruct (Z.eqb_spec account 0); [contradiction|]. simpl.
  zcase; reflexivity.
Qed.

Lemma _burn_run account v s :
  account <> 0 ->
  _burn account v s =
    if v <=? balance s account then
      (Ok tt, add_event (Transfer account 0 v)
                (set_totalSupply (wrap (_totalSupply s - v))
                   (upd_balances <[account := wrap (balance s account - v)]> s)))
    else (Revert InsufficientBalance, s).
Proof.
  intros Ha. unfold _burn, _update. tx_unfold.
  destruct (Z.eqb_spec account 0); [contradiction|]. simpl.
  zcase; reflexivity.
Qed.

Lemma _transfer_run from to v s :
  from <> 0 -> to <> 0 ->
  _transfer from to v s =
    if v <=? balance s from then
      (Ok tt,
       add_event (Transfer from to v)
         (upd_balances
            <[to := wrap (balance (upd_balances <[from := wrap (balance s from - v)]> s) to + v)]>
            (upd_balances <[from := wrap (balance s from - v)]> s)))
    else (Revert InsufficientBalance, s).
Proof.
  intros Hf Ht. unfold _transfer, _update. tx_unfold.
  destruct (Z.eqb_spec from 0); [contradiction|].
  destruct (Z.eqb_spec to 0); [contradiction|]. simpl.
  zcase; reflexivity.
Qed.

Lemma balance_nonneg s a : ledger_ok s -> 0 <= balance s a <= _totalSupply s.
Proof.
  intros [Hpos Hsum _ _]. rewrite <- Hsum. apply sum_balances_bound, Hpos.
Qed.

Lemma balance_pair_bound s a b :
  ledger_ok s -> a <> b -> balance s a + balance s b <= _totalSupply s.
Proof.
  intros [Hpos Hsum _ _] Hne. rewrite <- Hsum.
  apply sum_balances_bound2; assumption.
Qed.

Lemma balance_upd_same s a v : balance (upd_balances <[a := v]> s) a = v.
Proof. unfold balance. simpl. rewrite lookup_insert_eq. reflexivity. Qed.

Lemma balance_upd_other s a b v :
  a <> b -> balance (upd_balances <[a := v]> s) b = balance s b.
Proof. intros. unfold balance. simpl. rewrite lookup_insert_ne by assumption. reflexivity. Qed.

(** What a successful mint does, with the wrap-around gone. *)
Lemma _mint_effect account v s u s' :
  ledger_ok s -> 0 <= v -> account <> 0 ->
  _mint account v s = (Ok u, s') ->
  s' = add_event (Transfer 0 account v)
         (upd_balances <[account := balance s account + v]>
            (set_totalSupply (_totalSupply s + v) s)) /\
  _totalSupply s + v <= MAX_UINT256.
Proof.
  intros Hok Hv Ha. rewrite _mint_run by assumption.
  zcase; [|discriminate]. intros [= _ <-].
  pose proof (balance_nonneg s account Hok).
  rewrite wrap_small by lia. auto.
Qed.

Lemma _burn_effect account v s u s' :
  ledger_ok s -> 0 <= v -> account <> 0 ->
  _burn account v s = (Ok u, s') ->
  s' = add_event (Transfer account 0 v)
         (set_totalSupply (_totalSupply s - v)
            (upd_balances <[account := balance s account - v]> s)) /\
  v <= balance s account.
Proof.
  intros Hok Hv Ha. rewrite _burn_run by assumption.
  zcase; [|discriminate]. intros [= _ <-].
  pose proof (balance_nonneg s account Hok).
  pose proof (supply_max s Hok).
  rewrite !wrap_small by lia. auto.
Qed.

Lemma _transfer_effect from to v s u s' :
  ledger_ok s -> 0 <= v -> from <> 0 -> to <> 0 ->
  _transfer from to v s = (Ok u, s') ->
  s' = add_event (Transfer from to v)
         (upd_balances
            <[to := balance (upd_balances <[from := balance s from - v]> s) to + v]>
            (upd_balances <[from := balance s from - v]> s)) /\
  v <= balance s from.
Proof.
  intros Hok Hv Hf Ht. rewrite _transfer_run by assumption.
  zcase; [|discriminate]. intros [= _ <-].
  pose proof (balance_nonneg s from Hok).
  pose proof (supply_max s Hok).
  rewrite (wrap_small (balance s from - v)) by lia.
  rewrite wrap_small; [auto|].
  destruct (decide (from = to)) as [->|Hne].
  - rewrite balance_upd_same. lia.
  - rewrite balance_upd_other by assumption.
    pose proof (balance_nonneg s to Hok).
    pose proof (balance_pair_bound s from to Hok Hne). lia.
Qed.

(** ** The ledger invariant *)

Lemma ledger_ok_frame s s' :
  _balances s' = _balances s -> _totalSupply s' = _totalSupply s ->
  totalMinted s' = totalMinted s -> totalBurned s' = totalBurned s ->
  ledger_ok s -> ledger_ok s'.
Proof.
  intros Hb Ht Hm Hbn [H1 H2 H3 H4].
  constructor; rewrite ?Hb, ?Ht, ?Hm, ?Hbn; assumption.
Qed.

Lemma ledger_ok_deployed d : ledger_ok (deployed d).
Proof.
  constructor; simpl.
  - intros a v Hl. rewrite lookup_empty in Hl. discriminate.
  - reflexivity.
  - unfold MAX_UINT256. lia.
  - reflexivity.
Qed.

Lemma insert_nonneg (m : gmap Z Z) k x :
  (forall a v, m !! a = Some v -> 0 <= v) -> 0 <= x ->
  forall a v, <[k:=x]> m !! a = Some v -> 0 <= v.
Proof.
  intros Hpos Hx a v Hl. destruct (decide (k = a)) as [->|Hne].
  - rewrite lookup_insert_eq in Hl. congruence.
  - rewrite lookup_insert_ne in Hl by assumption. eauto.
Qed.

Lemma sum_balances_upd s a v :
  sum_balances (<[a:=v]> (_balances s)) = sum_balances (_balances s) - balance s a + v.
Proof. apply sum_balances_insert. Qed.

Lemma sum_after_upd s a v :
  sum_balances (_balances (upd_balances <[a:=v]> s))
  = sum_balances (_balances s) - balance s a + v.
Proof. apply sum_balances_insert. Qed.

Lemma totalMinted_add e s : totalMinted (add_event e s) = minted_by e + totalMinted s.
Proof. reflexivity. Qed.

Lemma totalBurned_add e s : totalBurned (add_event e s) = burned_by e + totalBurned s.
Proof. reflexivity. Qed.

Lemma ledger_ok_mint account v s u s' :
  ledger_ok s -> 0 <= v -> account <> 0 ->
  _mint account v s = (Ok u, s') -> ledger_ok s'.
Proof.
  intros Hok Hv Ha Hrun.
  destruct (_mint_effect _ _ _ _ _ Hok Hv Ha Hrun) as [-> Hmax].
  pose proof (balance_nonneg s account Hok) as Hb.
  destruct Hok as [Hpos Hsum Hsup Hlog].
  constructor; rewrite ?totalMinted_add, ?totalBurned_add; simpl.
  - apply insert_nonneg; [assumption | lia].
  - rewrite sum_balances_upd. lia.
  - assumption.
  - destruct (Z.eqb_spec account 0); [contradiction|].
    unfold totalMinted, totalBurned in *. simpl. lia.
Qed.

Lemma ledger_ok_burn account v s u s' :
  ledger_ok s -> 0 <= v -> account <> 0 ->
  _burn account v s = (Ok u, s') -> ledger_ok s'.
Proof.
  intros Hok Hv Ha Hrun.
  destruct (_burn_effect _ _ _ _ _ Hok Hv Ha Hrun) as [-> Hle].
  pose proof (balance_nonneg s account Hok) as Hb.
  destruct Hok as [Hpos Hsum Hsup Hlog].
  constructor; rewrite ?totalMinted_add, ?totalBurned_add; simpl.
  - apply insert_nonneg; [assumption | lia].
  - rewrite sum_balances_upd. lia.
  - lia.
  - destruct (Z.eqb_spec account 0); [contradiction|].
    unfold totalMinted, totalBurned in *. simpl. lia.
Qed.

Lemma ledger_ok_transfer from to v s u s' :
  ledger_ok s -> 0 <= v -> from <> 0 -> to <> 0 ->
  _transfer from to v s = (Ok u, s') -> ledger_ok s'.
Proof.
  intros Hok Hv Hf Ht Hrun.
  destruct (_transfer_effect _ _ _ _ _ _ Hok Hv Hf Ht Hrun) as [-> Hle].
  pose proof (balance_nonneg s from Hok) as Hbf.
  pose proof (balance_nonneg s to Hok) as Hbt.
  destruct Hok as [Hpos Hsum Hsup Hlog].
  constructor; rewrite ?totalMinted_add, ?totalBurned_add; [simpl | | simpl | simpl].
  - apply insert_nonneg; [apply insert_nonneg; [assumption | lia] |].
    destruct (decide (from = to)) as [->|Hne].
    + rewrite balance_upd_same. lia.
    + rewrite balance_upd_other by assumption. lia.
  - set (s1 := upd_balances <[from:=balance s from - v]> s).
    change (sum_balances (_balances (upd_balances <[to:=balance s1 to + v]> s1))
            = _totalSupply s).
    rewrite sum_after_upd. unfold s1 at 1. rewrite sum_after_upd. lia.
  - assumption.
  - destruct (Z.eqb_spec from 0); [contradiction|].
    destruct (Z.eqb_spec to 0); [contradiction|].
    unfold totalMinted, totalBurned in *. simpl. lia.
Qed.

(** A successful ledger move, as an explicit storage. *)
Lemma _mint_Ok account v s u s' :
  _mint account v s = (Ok u, s') ->
  account <> 0 /\ _totalSupply s + v <= MAX_UINT256 /\
  s' = add_event (Transfer 0 account v)
         (upd_balances <[account := wrap (balance s account + v)]>
            (set_totalSupply (_totalSupply s + v) s)).
Proof.
  intros Hrun. assert (account <> 0) as Ha.
  { intros ->. discriminate Hrun. }
  rewrite _mint_run in Hrun by assumption. revert Hrun.
  zcase; [intros [= _ <-]; auto | discriminate].
Qed.

Lemma _burn_Ok account v s u s' :
  _burn account v s = (Ok u, s') ->
  account <> 0 /\ v <= balance s account /\
  s' = add_event (Transfer account 0 v)
         (set_totalSupply (wrap (_totalSupply s - v))
            (upd_balances <[account := wrap (balance s account - v)]> s)).
Proof.
  intros Hrun. assert (account <> 0) as Ha.
  { intros ->. discriminate Hrun. }
  rewrite _burn_run in Hrun by assumption. revert Hrun.
  zcase; [intros [= _ <-]; auto | discriminate].
Qed.

Lemma _transfer_Ok from to v s u s' :
  _transfer from to v s = (Ok u, s') ->
  from <> 0 /\ to <> 0 /\ v <= balance s from /\
  s' = add_event (Transfer from to v)
         (upd_balances
            <[to := wrap (balance (upd_balances <[from := wrap (balance s from - v)]> s) to + v)]>
            (upd_balances <[from := wrap (balance s from - v)]> s)).
Proof.
  intros Hrun. assert (from <> 0) as Hf.
  { intros ->. discriminate Hrun. }
  assert (to <> 0) as Ht.
  { intros ->. unfold _transfer in Hrun. tx_unfold.
    destruct (from =? 0); discriminate Hrun. }
  rewrite _transfer_run in Hrun by assumption. revert Hrun.
  zcase; [intros [= _ <-]; auto | discriminate].
Qed.

(** ** Loops *)

Lemma for_from_keeps {A} (I : State -> Prop) (body : nat -> A -> Tx A) n :
  forall i acc s a s',
  (forall j acc s a s', (i <= j < i + n)%nat ->
      body j acc s = (Ok a, s') -> I s -> I s') ->
  for_from n i acc body s = (Ok a, s') -> I s -> I s'.
Proof.
  induction n as [|n IH]; intros i acc s a s' Hbody Hrun HI; simpl in Hrun.
  - apply ret_Ok in Hrun as [_ ->]. exact HI.
  - apply bind_Ok in Hrun as (acc1 & s1 & Hfirst & Hrest).
    eapply (IH (S i) acc1 s1 a s'); [| exact Hrest |].
    + intros j acc2 s2 a2 s2' Hj. apply Hbody. lia.
    + eapply Hbody; [| exact Hfirst | exact HI]. lia.
Qed.

(** ** Frames *)

Lemma only_orders_refl s : only_orders s s.
Proof. destruct s. reflexivity. Qed.

Lemma only_orders_trans s1 s2 s3 :
  only_orders s1 s2 -> only_orders s2 s3 -> only_orders s1 s3.
Proof. unfold only_orders. intros -> ->. reflexivity. Qed.

Lemma only_ledger_refl s : only_ledger s s.
Proof. destruct s. reflexivity. Qed.

Lemma only_ledger_trans s1 s2 s3 :
  only_ledger s1 s2 -> only_ledger s2 s3 -> only_ledger s1 s3.
Proof. unfold only_ledger. intros -> ->. reflexivity. Qed.

(** ** Order updates *)

Lemma take_from_order_run id amt s o :
  sellOrders s !! Z.to_nat id = Some o ->
  take_from_order id amt s =
    if amt <=? amount o then (Ok tt, upd_orders <[Z.to_nat id := taken amt o]> s)
    else (Revert PanicOverflow, s).
Proof.
  intros Hl. pose proof (lookup_lt_Some _ _ _ Hl) as Hlt.
  unfold take_from_order, write_order, order_at. tx_unfold. rewrite Hl.
  destruct (Z.leb_spec amt (amount o)); [|reflexivity].
  rewrite Hl. cbn [sellOrders upd_orders].
  rewrite list_lookup_insert_eq by assumption. cbn [amount set_amount].
  unfold taken. destruct (amount o - amt =? 0).
  - cbn [sellOrders upd_orders]. rewrite list_lookup_insert_eq by assumption.
    unfold upd_orders. cbn. rewrite list_insert_insert_eq. reflexivity.
  - reflexivity.
Qed.

Lemma take_from_order_Ok id amt s u s' :
  take_from_order id amt s = (Ok u, s') ->
  exists o, sellOrders s !! Z.to_nat id = Some o /\ amt <= amount o /\
            s' = upd_orders <[Z.to_nat id := taken amt o]> s.
Proof.
  intros H. assert (exists o, sellOrders s !! Z.to_nat id = Some o) as [o Ho].
  { unfold take_from_order in H. apply bind_Ok in H as (o & s1 & H1 & _).
    apply order_at_Ok in H1 as [H1 _]. eauto. }
  exists o. rewrite (take_from_order_run id amt s o Ho) in H. revert H.
  zcase; [intros [= _ <-]; auto | discriminate].
Qed.

Lemma take_from_order_only_orders orderId amountToBuy s u s' :
  take_from_order orderId amountToBuy s = (Ok u, s') -> only_orders s s'.
Proof. intros H. apply take_from_order_Ok in H as (o & _ & _ & ->). reflexivity. Qed.

(** Replace every successful order update by the storage it leaves. *)
Ltac order_shapes :=
  repeat match goal with
  | H : take_from_order _ _ _ = (Ok _, _) |- _ =>
      apply take_from_order_Ok in H as (? & ? & ? & ->)
  end.

(** ** The three passes of a batch *)

Lemma batch_validate_pure ids amts prices i acc s a s' :
  batch_validate ids amts prices i acc s = (Ok a, s') -> s' = s.
Proof. unfold batch_validate. intros H. tx_inv. reflexivity. Qed.

Lemma validate_pass_pure ids amts prices n i acc s a s' :
  for_from n i acc (batch_validate ids amts prices) s = (Ok a, s') -> s' = s.
Proof.
  intros H. eapply (for_from_keeps (fun st => st = s)); [| exact H | reflexivity].
  intros j acc0 s0 a0 s0' _ Hb ->. eapply batch_validate_pure; exact Hb.
Qed.

Lemma batch_mutate_only_orders ids amts i u0 s u s' :
  batch_mutate ids amts i u0 s = (Ok u, s') -> only_orders s s'.
Proof.
  unfold batch_mutate. intros H.
  apply bind_Ok in H as (id & s1 & H1 & H). apply index_Ok in H1 as [_ ->].
  apply bind_Ok in H as (amt & s1 & H1 & H). apply index_Ok in H1 as [_ ->].
  eapply take_from_order_only_orders; exact H.
Qed.

Lemma mutate_pass_only_orders ids amts n i u0 s u s' :
  for_from n i u0 (batch_mutate ids amts) s = (Ok u, s') -> only_orders s s'.
Proof.
  intros H. eapply (for_from_keeps (only_orders s)); [| exact H | apply only_orders_refl].
  intros j acc0 s0 a0 s0' _ Hb Hs.
  eapply only_orders_trans; [exact Hs | eapply batch_mutate_only_orders; exact Hb].
Qed.

Lemma batch_settle_only_ledger c fwd ids amts prices i u0 s u s' :
  batch_settle c fwd ids amts prices i u0 s = (Ok u, s') -> only_ledger s s'.
Proof.
  unfold batch_settle. intros H. tx_inv.
  match goal with
  | H : _transfer _ _ _ _ = _ |- _ => apply _transfer_Ok in H as (_ & _ & _ & ->)
  end. reflexivity.
Qed.

Lemma settle_pass_only_ledger c fwd ids amts prices n i u0 s u s' :
  for_from n i u0 (batch_settle c fwd ids amts prices) s = (Ok u, s') ->
  only_ledger s s'.
Proof.
  intros H. eapply (for_from_keeps (only_ledger s)); [| exact H | apply only_ledger_refl].
  intros j acc0 s0 a0 s0' _ Hb Hs.
  eapply only_ledger_trans; [exact Hs | eapply batch_settle_only_ledger; exact Hb].
Qed.

Lemma batch_validate_Ok ids amts prices j acc s a s' :
  batch_validate ids amts prices j acc s = (Ok a, s') ->
  exists id amt price,
    ids !! j = Some id /\ amts !! j = Some amt /\ prices !! j = Some price /\
    entry_valid s id amt price /\
    amt * price <= MAX_UINT256 /\
    a = acc + amt * price / SCALE /\ a <= MAX_UINT256 /\ s' = s.
Proof.
  unfold batch_validate. intros H. tx_inv. zbool.
  match goal with
  | H1 : ids !! j = Some ?id, H2 : amts !! j = Some ?amt, H3 : prices !! j = Some ?p |- _ =>
      exists id, amt, p
  end.
  repeat split; try assumption; try lia.
  eexists. repeat split; eauto.
Qed.

Lemma validate_pass_entries ids amts prices n :
  forall i acc s a s',
  for_from n i acc (batch_validate ids amts prices) s = (Ok a, s') ->
  forall j, (i <= j < i + n)%nat ->
  exists id amt price,
    ids !! j = Some id /\ amts !! j = Some amt /\ prices !! j = Some price /\
    entry_valid s id amt price.
Proof.
  induction n as [|n IH]; intros i acc s a s' Hrun j Hj; [lia|].
  simpl in Hrun. apply bind_Ok in Hrun as (acc1 & s1 & Hfirst & Hrest).
  apply batch_validate_Ok in Hfirst
    as (id & amt & price & H1 & H2 & H3 & Hv & _ & _ & _ & ->).
  destruct (decide (j = i)) as [->|Hne].
  - exists id, amt, price. auto.
  - apply (IH (S i) acc1 s a s' Hrest). lia.
Qed.

(** ** Invariants of every call *)

Lemma step_cases ck s :
  step ck s = s \/ exists u, run (fst ck) (snd ck) s = (Ok u, step ck s).
Proof.
  unfold step, transact.
  destruct (run (fst ck) (snd ck) s) as [[u|e] s'] eqn:Hrun; simpl; eauto.
Qed.

Ltac frame_ledger :=
  match goal with
  | H : ledger_ok ?s |- ledger_ok _ =>
      apply (ledger_ok_frame s);
      [reflexivity | reflexivity | reflexivity | reflexivity | exact H]
  end.

(** Push the ledger invariant through the ledger moves of a run. *)
Ltac ledger_moves :=
  repeat match goal with
  | H : _mint ?a ?v ?s1 = (Ok ?u, ?s2) |- _ =>
      pose proof (_mint_Ok _ _ _ _ _ H) as (? & _ & _);
      assert (ledger_ok s2)
        by (apply (ledger_ok_mint a v s1 u s2);
            [frame_ledger | unfold is_uint256 in *; lia | assumption | exact H]);
      clear H
  | H : _burn ?a ?v ?s1 = (Ok ?u, ?s2) |- _ =>
      pose proof (_burn_Ok _ _ _ _ _ H) as (? & _ & _);
      assert (ledger_ok s2)
        by (apply (ledger_ok_burn a v s1 u s2);
            [frame_ledger | unfold is_uint256 in *; lia | assumption | exact H]);
      clear H
  | H : _transfer ?a ?b ?v ?s1 = (Ok ?u, ?s2) |- _ =>
      pose proof (_transfer_Ok _ _ _ _ _ _ H) as (? & ? & _ & _);
      assert (ledger_ok s2)
        by (apply (ledger_ok_transfer a b v s1 u s2);
            [frame_ledger | unfold is_uint256 in *; lia
            | assumption | assumption | exact H]);
      clear H
  end.

(** Replace every successful ledger move by the storage it leaves. *)
Ltac ledger_shapes :=
  repeat match goal with
  | H : _mint _ _ _ = (Ok _, _) |- _ => apply _mint_Ok in H as (? & ? & ->)
  | H : _burn _ _ _ = (Ok _, _) |- _ => apply _burn_Ok in H as (? & ? & ->)
  | H : _transfer _ _ _ _ = (Ok _, _) |- _ => apply _transfer_Ok in H as (? & ? & ? & ->)
  end.

Ltac unfold_calls H :=
  unfold registerDevice, deregisterDevice, changeEnergyToCreditRatio,
    changeGovtWallet, changeFloorPricePerToken, logSmartMeterData,
    earnCarbonCredit, placeSellOrder, fulfillSellOrder, OwnerburnCredits,
    UtilizeCarbonCredit, mintCCT, transfer, approve, transferFrom,
    transferOwnership, renounceOwnership, _spendAllowance, _approve in H.

Lemma only_orders_ledger s s' : only_orders s s' -> ledger_ok s -> ledger_ok s'.
Proof.
  intros -> Hok. apply (ledger_ok_frame s); [reflexivity .. | exact Hok].
Qed.

Lemma batch_settle_ledger c fwd ids amts prices i u0 s u s' :
  Forall is_uint256 amts ->
  batch_settle c fwd ids amts prices i u0 s = (Ok u, s') ->
  ledger_ok s -> ledger_ok s'.
Proof.
  unfold batch_settle. intros Hamts H Hok. tx_inv.
  match goal with
  | Hl : amts !! i = Some ?a |- _ =>
      pose proof (proj1 (Forall_lookup _ _) Hamts i a Hl)
  end.
  ledger_moves. frame_ledger.
Qed.

Lemma settle_pass_ledger c fwd ids amts prices n i u0 s u s' :
  Forall is_uint256 amts ->
  for_from n i u0 (batch_settle c fwd ids amts prices) s = (Ok u, s') ->
  ledger_ok s -> ledger_ok s'.
Proof.
  intros Hamts H Hok. eapply (for_from_keeps ledger_ok); [| exact H | exact Hok].
  intros j acc0 s0 a0 s0' _ Hb Hs. eapply batch_settle_ledger; eauto.
Qed.

Lemma fulfillBatchOrders_ledger c value fwd ids amts prices s u s' :
  Forall is_uint256 amts ->
  fulfillBatchOrders c value fwd ids amts prices s = (Ok u, s') ->
  ledger_ok s -> ledger_ok s'.
Proof.
  intros Hamts H Hok. unfold fulfillBatchOrders, for_range in H. tx_inv.
  repeat match goal with
  | Hv : for_from _ _ _ (batch_validate _ _ _) _ = _ |- _ =>
      apply validate_pass_pure in Hv; subst
  | Hm : for_from _ _ _ (batch_mutate _ _) ?s1 = (Ok _, ?s2) |- _ =>
      apply mutate_pass_only_orders in Hm;
      assert (ledger_ok s2) by (apply (only_orders_ledger s1); [exact Hm | frame_ledger]);
      clear Hm
  | Hs : for_from _ _ _ (batch_settle _ _ _ _ _) ?s1 = (Ok _, ?s2) |- _ =>
      assert (ledger_ok s2) by (eapply settle_pass_ledger; eauto);
      clear Hs
  end.
  frame_ledger.
Qed.

Lemma ledger_ok_step ck s : valid_call ck -> ledger_ok s -> ledger_ok (step ck s).
Proof.
  intros [Hc Ha] Hok. destruct (step_cases ck s) as [->|[u Hrun]]; [assumption|].
  generalize dependent (step ck s). intros s' Hrun.
  destruct ck as [c k]; simpl in *. destruct Hc as (_ & _ & Hsender).
  destruct k; simpl in Hrun, Ha;
    try (unfold_calls Hrun; tx_inv; order_shapes; zbool; ledger_moves; frame_ledger).
  eapply fulfillBatchOrders_ledger; [| exact Hrun | exact Hok]. tauto.
Qed.

Lemma ledger_ok_exec tr : forall s,
  Forall valid_call tr -> ledger_ok s -> ledger_ok (exec tr s).
Proof.
  induction tr as [|ck tr IH]; intros s Hv Hok; simpl; [assumption|].
  inversion Hv; subst. apply IH; [assumption | apply ledger_ok_step; assumption].
Qed.

Lemma reachable_ledger_ok s : reachable s -> ledger_ok s.
Proof.
  intros (d & tr & _ & Hv & ->). apply ledger_ok_exec; [exact Hv | apply ledger_ok_deployed].
Qed.

(** Replace the passes of a batch by what they may have changed. *)
Ltac batch_passes :=
  unfold for_range in *;
  repeat match goal with
  | Hv : for_from _ _ _ (batch_validate _ _ _) _ = (Ok _, _) |- _ =>
      apply validate_pass_pure in Hv; subst
  | Hm : for_from _ _ _ (batch_mutate _ _) _ = (Ok _, _) |- _ =>
      apply mutate_pass_only_orders in Hm
  | Hs : for_from _ _ _ (batch_settle _ _ _ _ _) _ = (Ok _, _) |- _ =>
      apply settle_pass_only_ledger in Hs
  end.

Lemma status_step ck s : _status (step ck s) = _status s.
Proof.
  destruct (step_cases ck s) as [->|[u Hrun]]; [reflexivity|].
  generalize dependent (step ck s). intros s' Hrun.
  destruct ck as [c k]; simpl in *.
  destruct k; simpl in Hrun;
    try (unfold_calls Hrun; tx_inv; order_shapes; ledger_shapes; simpl;
         repeat match goal with
                | H : negb (_status _) = true |- _ => apply negb_true_iff in H
                end; congruence).
  unfold fulfillBatchOrders in Hrun. tx_inv. batch_passes.
  match goal with H : negb (_status _) = true |- _ => apply negb_true_iff in H end.
  simpl. congruence.
Qed.

Lemma status_exec tr : forall s, _status (exec tr s) = _status s.
Proof.
  induction tr as [|ck tr IH]; intros s; simpl; [reflexivity|].
  rewrite IH. apply status_step.
Qed.

Lemma reachable_status s : reachable s -> _status s = false.
Proof. intros (d & tr & _ & _ & ->). rewrite status_exec. reflexivity. Qed.

Ltac prove_valid :=
  unfold valid_call, valid_ctx, valid_args, is_address, is_uint256, MAX_UINT256;
  simpl; repeat (first [split | apply Forall_cons_2 | apply List.Forall_nil]); try lia.

Lemma scenario_valid : Forall valid_call scenario.
Proof.
  unfold scenario.
  repeat (apply Forall_cons_2; [prove_valid |]). apply List.Forall_nil.
Qed.

Lemma after_scenario_reachable : reachable after_scenario.
Proof.
  exists 1, scenario. split; [unfold is_address; lia|].
  split; [apply scenario_valid | reflexivity].
Qed.

(** The order book and the allowances keep their types. *)

Lemma book_ok_frame s s' :
  sellOrders s' = sellOrders s -> _allowances s' = _allowances s ->
  book_ok s -> book_ok s'.
Proof. intros Ho Ha [H1 H2]. constructor; rewrite ?Ho, ?Ha; assumption. Qed.

Lemma book_ok_deployed d : book_ok (deployed d).
Proof.
  constructor; simpl.
  - intros i o Hl. rewrite lookup_nil in Hl. discriminate.
  - intros k v Hl. rewrite lookup_empty in Hl. discriminate.
Qed.

Lemma book_ok_taken s i o amt :
  book_ok s -> sellOrders s !! i = Some o -> amt <= amount o ->
  book_ok (upd_orders <[i := taken amt o]> s).
Proof.
  intros [Ho Ha] Hl Hle. constructor; [|exact Ha].
  intros j o' Hj. cbn [sellOrders upd_orders] in Hj.
  destruct (decide (i = j)) as [->|Hne].
  - rewrite list_lookup_insert_eq in Hj by (eapply lookup_lt_Some; exact Hl).
    injection Hj as <-. destruct (Ho j o Hl) as (? & ? & ?). simpl.
    repeat split; [assumption | lia | assumption].
  - rewrite list_lookup_insert_ne in Hj by assumption. eauto.
Qed.

Lemma book_ok_placed s o :
  book_ok s -> seller o <> 0 -> 0 <= amount o -> 0 <= pricePerToken o ->
  book_ok (upd_orders (fun l => l ++ [o]) s).
Proof.
  intros [Ho Ha] ? ? ?. constructor; [|exact Ha].
  intros j o' Hj. cbn [sellOrders upd_orders] in Hj.
  apply lookup_app_Some in Hj as [Hj|[_ Hj]]; [eauto|].
  apply list_lookup_singleton_Some in Hj as [_ <-]. auto.
Qed.

Lemma book_ok_approved s k v :
  book_ok s -> 0 <= v -> book_ok (upd_allowances <[k := v]> s).
Proof.
  intros [Ho Ha] Hv. constructor; [exact Ho|].
  intros k' v' Hl. cbn [_allowances upd_allowances] in Hl.
  destruct (decide (k = k')) as [->|Hne].
  - rewrite lookup_insert_eq in Hl. congruence.
  - rewrite lookup_insert_ne in Hl by assumption. eauto.
Qed.

Lemma wrap_nonneg x : 0 <= wrap x.
Proof. unfold wrap. apply Z.mod_pos_bound. lia. Qed.

Ltac frame_book :=
  match goal with
  | H : book_ok ?s |- book_ok _ =>
      apply (book_ok_frame s); [reflexivity | reflexivity | exact H]
  end.

Lemma only_orders_book_mutate ids amts i u0 s u s' :
  batch_mutate ids amts i u0 s = (Ok u, s') -> book_ok s -> book_ok s'.
Proof.
  unfold batch_mutate. intros H Hok. tx_inv. order_shapes.
  apply book_ok_taken; assumption.
Qed.

Lemma mutate_pass_book ids amts n i u0 s u s' :
  for_from n i u0 (batch_mutate ids amts) s = (Ok u, s') -> book_ok s -> book_ok s'.
Proof.
  intros H Hok. eapply (for_from_keeps book_ok); [| exact H | exact Hok].
  intros j acc0 s0 a0 s0' _ Hb Hs. eapply only_orders_book_mutate; eauto.
Qed.

Lemma book_ok_step ck s : valid_call ck -> book_ok s -> book_ok (step ck s).
Proof.
  intros [Hc Ha] Hok. destruct (step_cases ck s) as [->|[u Hrun]]; [assumption|].
  generalize dependent (step ck s). intros s' Hrun.
  destruct ck as [c k]; simpl in *. destruct Hc as (_ & _ & Hsender).
  destruct k as [d|d|r|a|p|p t e|e t|a p|v fwd i a|v fwd ids amts prices
                |a v why|a|a v|to v|sp v|from to v|o|];
    simpl in Hrun, Ha;
    try (unfold_calls Hrun; tx_inv; order_shapes; ledger_shapes; frame_book).
  - (* placeSellOrder *)
    unfold_calls Hrun. tx_inv. zbool. unfold is_uint256 in Ha.
    apply (book_ok_frame (upd_orders (fun l => l ++ [mkOrder (sender c) a p false]) s));
      [reflexivity | reflexivity |].
    apply book_ok_placed; simpl; [assumption | assumption | lia | lia].
  - (* fulfillSellOrder *)
    unfold_calls Hrun. tx_inv. order_shapes. ledger_shapes. zbool.
    match goal with
    | Hl : sellOrders _ !! ?i = Some ?o, Hle : ?amt <= amount ?o |- _ =>
        apply (book_ok_frame (upd_orders <[i := taken amt o]> s));
          [reflexivity | reflexivity | apply book_ok_taken; assumption]
    end.
  - (* fulfillBatchOrders *)
    unfold fulfillBatchOrders, for_range in Hrun. tx_inv.
    repeat match goal with
    | Hv : for_from _ _ _ (batch_validate _ _ _) _ = _ |- _ =>
        apply validate_pass_pure in Hv; subst
    | Hm : for_from _ _ _ (batch_mutate _ _) ?s1 = (Ok _, ?s2) |- _ =>
        assert (book_ok s2) by (apply (mutate_pass_book _ _ _ _ _ _ _ _ Hm); frame_book);
        clear Hm
    | Hs : for_from _ _ _ (batch_settle _ _ _ _ _) _ = (Ok _, _) |- _ =>
        apply settle_pass_only_ledger in Hs; rewrite Hs
    end.
    frame_book.
  - (* approve *)
    unfold_calls Hrun. tx_inv. unfold is_uint256 in Ha.
    apply (book_ok_frame (upd_allowances <[(sender c, sp) := v]> s));
      [reflexivity | reflexivity | apply book_ok_approved; [assumption | lia]].
  - (* transferFrom *)
    unfold_calls Hrun. tx_inv; ledger_shapes.
    + apply (book_ok_frame
               (upd_allowances <[(from, sender c) := wrap (allowed s from (sender c) - v)]> s));
        [reflexivity | reflexivity | apply book_ok_approved; [assumption | apply wrap_nonneg]].
    + frame_book.
Qed.

Lemma book_ok_exec tr : forall s,
  Forall valid_call tr -> book_ok s -> book_ok (exec tr s).
Proof.
  induction tr as [|ck tr IH]; intros s Hv Hok; simpl; [assumption|].
  inversion Hv; subst. apply IH; [assumption | apply book_ok_step; assumption].
Qed.

Lemma reachable_book_ok s : reachable s -> book_ok s.
Proof.
  intros (d & tr & _ & Hv & ->). apply book_ok_exec; [exact Hv | apply book_ok_deployed].
Qed.

(** ** Conservation *)

(** C8. At every point of every sequence of calls (mint, burn, transfer,
    claim, single and batch fulfilment, administrative mint and burn, and
    the rest of the interface), the sum of all account balances equals the
    cumulative amount minted minus the cumulative amount burned. *)
Theorem conservation s :
  reachable s ->
  sum_balances (_balances s) = totalMinted s - totalBurned s.
Proof.
  intros Hr. destruct (reachable_ledger_ok s Hr) as [_ Hsum _ Hlog]. lia.
Qed.

Lemma conservation_witness :
  sum_balances (_balances after_scenario)
  = totalMinted after_scenario - totalBurned after_scenario.
Proof. exact (conservation after_scenario after_scenario_reachable). Defined.

(** ** Retiring credits: [UtilizeCarbonCredit] *)





(** ** Claiming credits: [earnCarbonCredit] *)

Lemma earnCarbonCredit_run c e t s :
  sender c <> 0 ->
  transact (earnCarbonCredit c e t) s =
    let recorded := meter s (sender c) t in
    let credits := e * SCALE / ENERGY_TO_CREDIT_CONVERSION s in
    if e <=? 0 then (Revert InvalidAmount, s)
    else if recorded <=? 0 then (Revert NoAttestation, s)
    else if recorded <? e then (Revert ClaimExceedsAttested, s)
    else if MAX_UINT256 <? e * SCALE then (Revert PanicOverflow, s)
    else if ENERGY_TO_CREDIT_CONVERSION s =? 0 then (Revert PanicDivisionByZero, s)
    else if credits <=? 0 then (Revert BelowMintingThreshold, s)
    else if MAX_UINT256 <? _totalSupply s + credits then (Revert PanicOverflow, s)
    else (Ok credits,
          add_event (CarbonCreditsMinted (sender c) e credits)
            (add_event (Transfer 0 (sender c) credits)
               (upd_balances <[sender c := wrap (balance s (sender c) + credits)]>
                  (set_totalSupply (_totalSupply s + credits)
                     (upd_meter <[(sender c, t) := recorded - e]> s))))).
Proof.
  intros Hs. unfold earnCarbonCredit. tx_unfold. cbv zeta.
  destruct (Z.ltb_spec 0 e), (Z.leb_spec e 0); try lia; [|reflexivity].
  destruct (Z.ltb_spec 0 (meter s (sender c) t)), (Z.leb_spec (meter s (sender c) t) 0);
    try lia; [|reflexivity].
  destruct (Z.leb_spec e (meter s (sender c) t)), (Z.ltb_spec (meter s (sender c) t) e);
    try lia; [|reflexivity].
  destruct (Z.leb_spec (e * SCALE) MAX_UINT256), (Z.ltb_spec MAX_UINT256 (e * SCALE));
    try lia; [|reflexivity].
  destruct (Z.eqb_spec (ENERGY_TO_CREDIT_CONVERSION s) 0); [reflexivity|].
  set (credits := e * SCALE / ENERGY_TO_CREDIT_CONVERSION s).
  destruct (Z.ltb_spec 0 credits), (Z.leb_spec credits 0); try lia; [|reflexivity].
  destruct (Z.leb_spec e (meter s (sender c) t)); [|lia].
  rewrite _mint_run by assumption. simpl.
  destruct (Z.leb_spec (_totalSupply s + credits) MAX_UINT256),
    (Z.ltb_spec MAX_UINT256 (_totalSupply s + credits)); try lia; reflexivity.
Qed.

(** C4, as stated, fails on the code: a claim of zero energy is rejected
    by the guard on a positive amount, before the meter is looked at.  On
    an empty bucket the claim says [NoAttestation]; on a bucket holding
    200, where the computed credits are zero, it says
    [BelowMintingThreshold]. *)
Lemma claim_of_zero_energy_rejected :
  (meter after_scenario 3 8 = 0 /\
   fst (transact (earnCarbonCredit as_producer 0 8) after_scenario)
   = Revert InvalidAmount) /\
  (meter after_scenario 3 7 = 200 /\
   0 * SCALE / ENERGY_TO_CREDIT_CONVERSION after_scenario = 0 /\
   fst (transact (earnCarbonCredit as_producer 0 7) after_scenario)
   = Revert InvalidAmount).
Proof. vm_compute. repeat split. Qed.

(** The side conditions of the amended statement are those of checked
    arithmetic: once the owner has set the conversion ratio to zero a
    claim panics on the division, and a claim against an attested [2^250]
    panics on the multiplication by [1e18]. *)
Lemma claim_arithmetic_panics :
  fst (transact (earnCarbonCredit as_producer 100 7)
         (exec [(as_owner, call_changeEnergyToCreditRatio 0)] after_scenario))
  = Revert PanicDivisionByZero /\
  fst (transact (earnCarbonCredit as_producer (2 ^ 250) 9)
         (exec [(as_device, call_logSmartMeterData 3 9 (2 ^ 250))] after_scenario))
  = Revert PanicOverflow.
Proof. vm_compute. repeat split. Qed.

(** C4, amended.  A claim of zero energy fails [InvalidAmount].  For a
    positive [energyAmount]: the claim fails [NoAttestation] when the
    stored value is zero and [ClaimExceedsAttested] when [energyAmount]
    exceeds a positive stored value; when [energyAmount] does not exceed
    the positive stored value, [energyAmount * SCALE] fits 256 bits and
    the conversion ratio is positive, it fails [BelowMintingThreshold] if
    the computed credits are zero, and otherwise (the supply with the new
    credits fitting 256 bits) returns and mints exactly
    [energyAmount * SCALE / conversionRatio] to the caller and decrements
    the meter record by exactly [energyAmount].  Every failure leaves the
    storage, the meter record included, unchanged. *)
Theorem claimCredits_cases c e t s :
  reachable s -> valid_ctx c -> is_uint256 e ->
  let r := transact (earnCarbonCredit c e t) s in
  let recorded := meter s (sender c) t in
  let credits := e * SCALE / ENERGY_TO_CREDIT_CONVERSION s in
  (e = 0 -> fst r = Revert InvalidAmount) /\
  (0 < e -> recorded = 0 -> fst r = Revert NoAttestation) /\
  (0 < e -> 0 < recorded < e -> fst r = Revert ClaimExceedsAttested) /\
  (0 < e <= recorded -> e * SCALE <= MAX_UINT256 ->
   0 < ENERGY_TO_CREDIT_CONVERSION s ->
     (credits = 0 -> fst r = Revert BelowMintingThreshold) /\
     (credits <> 0 -> _totalSupply s + credits <= MAX_UINT256 ->
        fst r = Ok credits /\
        balance (snd r) (sender c) = balance s (sender c) + credits /\
        _totalSupply (snd r) = _totalSupply s + credits /\
        meter (snd r) (sender c) t = recorded - e)) /\
  (forall err, fst r = Revert err -> snd r = s).
Proof.
  intros Hr (_ & _ & Hs) [He _] r recorded credits.
  pose proof (reachable_ledger_ok s Hr) as Hok.
  pose proof (balance_nonneg s (sender c) Hok) as Hb.
  assert (Hrun := earnCarbonCredit_run c e t s Hs).
  cbv zeta in Hrun. fold recorded credits in Hrun. fold r in Hrun.
  split; [|split; [|split; [|split]]].
  - intros ->. rewrite Hrun. reflexivity.
  - intros He0 Hrec. rewrite Hrun, Hrec.
    destruct (Z.leb_spec e 0); [lia | reflexivity].
  - intros He0 Hrec. rewrite Hrun.
    destruct (Z.leb_spec e 0); [lia|].
    destruct (Z.leb_spec recorded 0); [lia|].
    destruct (Z.ltb_spec recorded e); [reflexivity | lia].
  - intros Hle Hmul Hratio.
    assert (0 <= credits) by (apply Z.div_pos; unfold SCALE; lia).
    rewrite Hrun.
    destruct (Z.leb_spec e 0); [lia|].
    destruct (Z.leb_spec recorded 0); [lia|].
    destruct (Z.ltb_spec recorded e); [lia|].
    destruct (Z.ltb_spec MAX_UINT256 (e * SCALE)); [lia|].
    destruct (Z.eqb_spec (ENERGY_TO_CREDIT_CONVERSION s) 0); [lia|].
    split.
    + intros ->. reflexivity.
    + intros Hc Hsup.
      destruct (Z.leb_spec credits 0); [lia|].
      destruct (Z.ltb_spec MAX_UINT256 (_totalSupply s + credits)); [lia|].
      simpl. rewrite wrap_small by lia.
      split; [reflexivity|]. split; [|split].
      * unfold balance at 1. simpl. rewrite lookup_insert_eq. reflexivity.
      * reflexivity.
      * unfold meter at 1. simpl. rewrite lookup_insert_eq. reflexivity.
  - intros err. apply transact_Revert.
Qed.

Lemma claimCredits_cases_witness :
  fst (transact (earnCarbonCredit as_producer 100 7) after_scenario) = Ok (10 ^ 18) /\
  meter (snd (transact (earnCarbonCredit as_producer 100 7) after_scenario)) 3 7 = 100.
Proof.
  destruct (claimCredits_cases as_producer 100 7 after_scenario after_scenario_reachable)
    as (_ & _ & _ & H & _).
  - unfold valid_ctx, is_address. simpl. lia.
  - unfold is_uint256, MAX_UINT256. lia.
  - destruct H as [_ H].
    + vm_compute. split; [reflexivity | intro; discriminate].
    + vm_compute. intro; discriminate.
    + vm_compute. reflexivity.
    + destruct H as (H1 & _ & _ & H4).
      * vm_compute. intro; discriminate.
      * vm_compute. intro; discriminate.
      * split; [exact H1 | exact H4].
Defined.

(** ** Placing an order: [placeSellOrder] *)

Lemma placeSellOrder_run c a p s :
  transact (placeSellOrder c a p) s =
    if p <? FloorPricePerToken s then (Revert PriceBelowFloor, s)
    else if balance s (sender c) <? a then (Revert InsufficientBalance, s)
    else if allowed s (sender c) (this c) <? a then (Revert InsufficientAllowance, s)
    else (Ok (Z.of_nat (length (sellOrders s))),
          add_event (SellOrderPlaced (Z.of_nat (length (sellOrders s))) (sender c) a p)
            (upd_orders (fun l => l ++ [mkOrder (sender c) a p false]) s)).
Proof.
  unfold placeSellOrder. tx_unfold.
  destruct (Z.ltb_spec p (FloorPricePerToken s)),
    (Z.leb_spec (FloorPricePerToken s) p); try lia; [reflexivity|].
  destruct (Z.ltb_spec (balance s (sender c)) a),
    (Z.leb_spec a (balance s (sender c))); try lia; [reflexivity|].
  destruct (Z.ltb_spec (allowed s (sender c) (this c)) a),
    (Z.leb_spec a (allowed s (sender c) (this c))); try lia; [reflexivity|].
  cbn [sellOrders upd_orders]. rewrite length_app. cbn [length].
  destruct (Z.leb_spec 1 (Z.of_nat (length (sellOrders s) + 1))); [|lia].
  replace (Z.of_nat (length (sellOrders s) + 1) - 1)
    with (Z.of_nat (length (sellOrders s))) by lia.
  reflexivity.
Qed.

(** C5, as stated, fails on the code: the checks run in order and the
    first failing one names the error.  The buyer holds 890 and offers
    1000 at a price below the floor: the balance is below the amount, yet
    the call fails [PriceBelowFloor], not [InsufficientBalance]. *)
Lemma place_below_floor_and_balance :
  5 < FloorPricePerToken after_scenario /\
  balance after_scenario (sender as_buyer) < 1000 /\
  fst (transact (placeSellOrder as_buyer 1000 5) after_scenario)
  = Revert PriceBelowFloor.
Proof. vm_compute. repeat split. Qed.

(** C5, amended.  [placeSellOrder] fails [PriceBelowFloor] iff the price
    is below the current floor; it fails [InsufficientBalance] iff the
    price is at or above the floor and the seller's balance is below the
    amount; it fails [InsufficientAllowance] iff price and balance pass
    and the seller's allowance to the contract is below the amount;
    otherwise it appends a new order with the given fields and
    [fulfilled = false] and returns its dense sequential id (the new
    length of the order array minus one), leaving all prior orders
    unchanged. *)
Theorem placeSellOrder_cases c a p s :
  let r := transact (placeSellOrder c a p) s in
  let floor := FloorPricePerToken s in
  let bal := balance s (sender c) in
  let allw := allowed s (sender c) (this c) in
  (fst r = Revert PriceBelowFloor <-> p < floor) /\
  (fst r = Revert InsufficientBalance <-> floor <= p /\ bal < a) /\
  (fst r = Revert InsufficientAllowance <-> floor <= p /\ a <= bal /\ allw < a) /\
  (floor <= p -> a <= bal -> a <= allw ->
     fst r = Ok (Z.of_nat (length (sellOrders (snd r))) - 1) /\
     sellOrders (snd r) = sellOrders s ++ [mkOrder (sender c) a p false] /\
     (forall i o, sellOrders s !! i = Some o -> sellOrders (snd r) !! i = Some o)).
Proof.
  intros r floor bal allw. subst r. rewrite placeSellOrder_run.
  fold floor bal allw.
  destruct (Z.ltb_spec p floor);
    [|destruct (Z.ltb_spec bal a); [|destruct (Z.ltb_spec allw a)]]; simpl.
  - repeat split; try discriminate; try lia; auto.
  - repeat split; try discriminate; try lia; auto.
  - repeat split; try discriminate; try lia; auto.
  - split; [split; [discriminate | lia]|].
    split; [split; [discriminate | lia]|].
    split; [split; [discriminate | lia]|].
    intros _ _ _. split; [|split].
    + rewrite length_app. simpl. f_equal. lia.
    + reflexivity.
    + intros i o Hi. apply lookup_app_l_Some. exact Hi.
Qed.

Lemma placeSellOrder_cases_witness :
  fst (transact (placeSellOrder as_producer 20 (10 ^ 18)) after_scenario) = Ok 1 /\
  sellOrders (snd (transact (placeSellOrder as_producer 20 (10 ^ 18)) after_scenario))
  = sellOrders after_scenario ++ [mkOrder 3 20 (10 ^ 18) false].
Proof.
  destruct (placeSellOrder_cases as_producer 20 (10 ^ 18) after_scenario)
    as (_ & _ & _ & H).
  destruct H as (H1 & H2 & _).
  - vm_compute. intro; discriminate.
  - vm_compute. intro; discriminate.
  - vm_compute. intro; discriminate.
  - split; [exact H1 | exact H2].
Defined.

(** ** Buying from an order: [fulfillSellOrder] *)

Lemma order_id_in_range id (l : list SellOrder) o :
  l !! Z.to_nat id = Some o -> id < Z.of_nat (length l).
Proof. intros Hl. apply lookup_lt_Some in Hl. lia. Qed.

Lemma fulfillSellOrder_run c value fwd id amt s o :
  _status s = false ->
  sellOrders s !! Z.to_nat id = Some o ->
  transact (fulfillSellOrder c value fwd id amt) s =
    let total := amt * pricePerToken o / SCALE in
    if fulfilled o then (Revert OrderClosed, s)
    else if (amt <=? 0) || (amount o <? amt) then (Revert InvalidAmount, s)
    else if MAX_UINT256 <? amt * pricePerToken o then (Revert PanicOverflow, s)
    else if negb (value =? total) then (Revert IncorrectPayment, s)
    else if balance s (seller o) <? amt then (Revert SellerUnderfunded, s)
    else
      match _transfer (seller o) (sender c) amt
              (upd_orders <[Z.to_nat id := taken amt o]> (set_status true s)) with
      | (Ok _, s2) =>
          if fwd O (seller o) value then
            (Ok true,
             set_status false
               (add_event (SellOrderFulfilled id (sender c) amt value) s2))
          else (Revert PaymentForwardingFailed, s)
      | (Revert e, _) => (Revert e, s)
      end.
Proof.
  intros Hst Hl. pose proof (order_id_in_range _ _ _ Hl) as Hid.
  pose proof (lookup_lt_Some _ _ _ Hl) as Hlt.
  unfold fulfillSellOrder, order_at. tx_unfold. rewrite Hst. tx_eval.
  destruct (Z.ltb_spec id (Z.of_nat (length (sellOrders s)))); [|lia].
  tx_eval. rewrite Hl. destruct (fulfilled o); [reflexivity|]. tx_eval.
  destruct (Z.ltb_spec 0 amt), (Z.leb_spec amt 0); try lia; tx_eval; [|reflexivity].
  destruct (Z.leb_spec amt (amount o)), (Z.ltb_spec (amount o) amt); try lia; tx_eval;
    [|reflexivity].
  destruct (Z.leb_spec (amt * pricePerToken o) MAX_UINT256),
    (Z.ltb_spec MAX_UINT256 (amt * pricePerToken o)); try lia; tx_eval; [|reflexivity].
  change (SCALE =? 0) with false. tx_eval.
  destruct (value =? amt * pricePerToken o / SCALE); tx_eval; [|reflexivity].
  change (balance (set_status true s) (seller o)) with (balance s (seller o)).
  destruct (Z.leb_spec amt (balance s (seller o))), (Z.ltb_spec (balance s (seller o)) amt);
    try lia; tx_eval; [|reflexivity].
  rewrite (take_from_order_run id amt (set_status true s) o) by exact Hl.
  destruct (Z.leb_spec amt (amount o)); [|lia]. tx_eval.
  rewrite list_lookup_insert_eq by assumption. tx_eval.
  change (seller (taken amt o)) with (seller o).
  destruct (_transfer (seller o) (sender c) amt _) as [[u|e] s2]; [|reflexivity].
  destruct (fwd O (seller o) value); reflexivity.
Qed.


Lemma huge_order_reachable : reachable after_huge_order.
Proof.
  exists 1, huge_order_scenario. split; [unfold is_address; lia|].
  split; [|reflexivity]. unfold huge_order_scenario.
  repeat (apply Forall_cons_2; [prove_valid |]). apply List.Forall_nil.
Qed.

Lemma dust_order_reachable : reachable after_dust_order.
Proof.
  exists 1, dust_order_scenario. split; [unfold is_address; lia|].
  split; [|reflexivity]. unfold dust_order_scenario.
  repeat (apply Forall_cons_2; [prove_valid |]). apply List.Forall_nil.
Qed.

(** C3, as stated, fails on the code: the product [buyAmount * price] is
    computed in checked 256-bit arithmetic before the payment is looked
    at.  On the open order of [2^200] units at price [2^100], a payment
    one unit above [buyAmount * price / SCALE] (a 256-bit value) fails with
    the overflow panic, not with [IncorrectPayment]. *)
Lemma payment_check_after_overflow :
  sellOrders after_huge_order !! 0%nat = Some (mkOrder 3 (2 ^ 200) (2 ^ 100) false) /\
  is_uint256 (2 ^ 200 * 2 ^ 100 / SCALE + 1) /\
  fst (transact (fulfillSellOrder as_buyer (2 ^ 200 * 2 ^ 100 / SCALE + 1)
                   accepting 0 (2 ^ 200)) after_huge_order)
  = Revert PanicOverflow.
Proof.
  split; [vm_compute; reflexivity|]. split; [|vm_compute; reflexivity].
  unfold is_uint256, MAX_UINT256, SCALE. split; vm_compute; intro; discriminate.
Qed.

(** C3, amended.  For every open order and every valid [buyAmount]
    ([0 < buyAmount <= remaining]), [fulfillSellOrder] succeeds only when
    the payment sent equals [buyAmount * pricePerUnit / SCALE] exactly
    (integer division, [SCALE = 1e18]); and when
    [buyAmount * pricePerUnit] fits 256 bits, any other payment sent (one
    unit above or below that value in particular) fails
    [IncorrectPayment] with no state change. *)
Theorem exact_payment c value fwd id amt s o :
  reachable s ->
  sellOrders s !! Z.to_nat id = Some o -> fulfilled o = false ->
  0 < amt <= amount o ->
  let r := transact (fulfillSellOrder c value fwd id amt) s in
  let total := amt * pricePerToken o / SCALE in
  (forall b, fst r = Ok b -> value = total) /\
  (amt * pricePerToken o <= MAX_UINT256 -> value <> total ->
     fst r = Revert IncorrectPayment /\ snd r = s).
Proof.
  intros Hr Hl Hopen Hamt r total.
  pose proof (reachable_status s Hr) as Hst.
  subst r. rewrite (fulfillSellOrder_run c value fwd id amt s o Hst Hl).
  cbv zeta. fold total. rewrite Hopen.
  destruct (Z.leb_spec amt 0); [lia|].
  destruct (Z.ltb_spec (amount o) amt); [lia|]. cbn [orb].
  destruct (Z.ltb_spec MAX_UINT256 (amt * pricePerToken o)).
  - split; [discriminate | lia].
  - destruct (Z.eqb_spec value total); cbn [negb].
    + split; [auto | contradiction].
    + split; [discriminate | auto].
Qed.

Lemma exact_payment_witness :
  fst (transact (fulfillSellOrder as_buyer 1 accepting 0 100) after_dust_order)
  = Revert IncorrectPayment /\
  snd (transact (fulfillSellOrder as_buyer 1 accepting 0 100) after_dust_order)
  = after_dust_order.
Proof.
  destruct (exact_payment as_buyer 1 accepting 0 100 after_dust_order
              (mkOrder 3 1000 (10 ^ 7) false) dust_order_reachable) as [_ H].
  - reflexivity.
  - reflexivity.
  - simpl. lia.
  - apply H.
    + vm_compute. intro; discriminate.
    + vm_compute. intro; discriminate.
Defined.




(** ** Orders of amount zero *)

Lemma batch_mutate_elsewhere ids amts j u0 s u s' i o :
  (forall id, ids !! j = Some id -> Z.to_nat id <> i) ->
  batch_mutate ids amts j u0 s = (Ok u, s') ->
  sellOrders s !! i = Some o -> sellOrders s' !! i = Some o.
Proof.
  unfold batch_mutate. intros Hne H Hl. tx_inv. order_shapes.
  cbn [sellOrders upd_orders]. rewrite list_lookup_insert_ne; [exact Hl | eauto].
Qed.

Lemma empty_order_step ck s i o :
  amount o = 0 -> sellOrders s !! i = Some o ->
  sellOrders (step ck s) !! i = Some o.
Proof.
  intros Hzero Hl. destruct (step_cases ck s) as [->|[u Hrun]]; [assumption|].
  generalize dependent (step ck s). intros s' Hrun.
  destruct ck as [c k]; simpl in *.
  destruct k as [d|d|r|a|p|p t e|e t|a p|v fwd id a|v fwd ids amts prices
                |a v why|a|a v|to v|sp v|from to v|ow|];
    simpl in Hrun;
    try (unfold_calls Hrun; tx_inv; order_shapes; ledger_shapes; exact Hl).
  - (* placeSellOrder *)
    unfold_calls Hrun. tx_inv. cbn [sellOrders add_event upd_orders].
    apply lookup_app_l_Some. exact Hl.
  - (* fulfillSellOrder *)
    unfold_calls Hrun. tx_inv. order_shapes. ledger_shapes. zbool.
    cbn [sellOrders add_event upd_orders set_status upd_balances] in *.
    rewrite list_lookup_insert_ne; [exact Hl|].
    intros Heq. subst i.
    match goal with
    | H1 : sellOrders s !! Z.to_nat id = Some ?o1 |- _ =>
        assert (o1 = o) by congruence; subst
    end. lia.
  - (* fulfillBatchOrders *)
    unfold fulfillBatchOrders, for_range in Hrun. tx_inv.
    match goal with
    | Hv : for_from _ _ _ (batch_validate _ _ _) _ = _ |- _ =>
        pose proof (validate_pass_entries _ _ _ _ _ _ _ _ _ Hv) as Hentries;
        apply validate_pass_pure in Hv; subst
    end.
    match goal with
    | Hs : for_from _ _ _ (batch_settle _ _ _ _ _) _ = (Ok _, _) |- _ =>
        apply settle_pass_only_ledger in Hs; rewrite Hs
    end.
    cbn [sellOrders add_event set_status].
    match goal with
    | Hm : for_from _ _ _ (batch_mutate _ _) _ = (Ok _, _) |- _ =>
        eapply (for_from_keeps (fun st => sellOrders st !! i = Some o)); [| exact Hm | exact Hl]
    end.
    intros j accj sj aj sj' Hj Hb Hs0.
    eapply batch_mutate_elsewhere; [| exact Hb | exact Hs0].
    intros id Hid Heq. subst i.
    destruct (Hentries j Hj)
      as (id' & amt & price & Hid' & _ & _ & _ & o' & Ho' & _ & Hamt & _).
    assert (id' = id) by congruence. subst.
    cbn [sellOrders set_status] in Ho'. assert (o' = o) by congruence. subst. lia.
Qed.

Lemma empty_order_exec tr : forall s i o,
  amount o = 0 -> sellOrders s !! i = Some o ->
  sellOrders (exec tr s) !! i = Some o.
Proof.
  induction tr as [|ck tr IH]; intros s i o Hzero Hl; simpl; [exact Hl|].
  apply IH; [exact Hzero | apply empty_order_step; assumption].
Qed.

Lemma empty_order_unfulfillable c value fwd id amt s o :
  amount o = 0 -> sellOrders s !! Z.to_nat id = Some o ->
  exists e, fst (transact (fulfillSellOrder c value fwd id amt) s) = Revert e.
Proof.
  intros Hzero Hl.
  destruct (transact (fulfillSellOrder c value fwd id amt) s) as [[b|e] s'] eqn:Hrun;
    [|eauto].
  exfalso. apply transact_Ok in Hrun. unfold_calls Hrun. tx_inv. zbool.
  match goal with
  | H1 : sellOrders _ !! Z.to_nat id = Some ?o1 |- _ =>
      cbn [sellOrders set_status] in H1; assert (o1 = o) by congruence; subst; lia
  end.
Qed.

Lemma empty_order_not_in_batch c value fwd ids amts prices id s o :
  amount o = 0 -> sellOrders s !! Z.to_nat id = Some o -> id ∈ ids ->
  exists e, fst (transact (fulfillBatchOrders c value fwd ids amts prices) s) = Revert e.
Proof.
  intros Hzero Hl Hin.
  destruct (transact (fulfillBatchOrders c value fwd ids amts prices) s)
    as [[b|e] s'] eqn:Hrun; [|eauto].
  exfalso. apply transact_Ok in Hrun.
  unfold fulfillBatchOrders, for_range in Hrun. tx_inv.
  match goal with
  | Hv : for_from _ _ _ (batch_validate _ _ _) _ = _ |- _ =>
      pose proof (validate_pass_entries _ _ _ _ _ _ _ _ _ Hv) as Hentries
  end.
  apply list_elem_of_lookup in Hin as [j Hj].
  destruct (Hentries j) as (id' & amt & price & Hid' & _ & _ & _ & o' & Ho' & _ & Hamt & _).
  { apply lookup_lt_Some in Hj. lia. }
  assert (id' = id) by congruence. subst.
  cbn [sellOrders set_status] in Ho'. assert (o' = o) by congruence. subst. lia.
Qed.

(** C9.  [placeSellOrder] does not require a positive amount: with amount
    zero and any price at or above the floor it succeeds and appends an
    open order of remaining amount zero; after any sequence of calls that
    order is still there, open and with amount zero, and every
    [fulfillSellOrder] on it (and every batch that names it) fails. *)
Theorem zero_amount_order_stays_open c p s :
  reachable s -> FloorPricePerToken s <= p ->
  let r := transact (placeSellOrder c 0 p) s in
  let id := Z.of_nat (length (sellOrders s)) in
  let o := mkOrder (sender c) 0 p false in
  fst r = Ok id /\
  sellOrders (snd r) = sellOrders s ++ [o] /\
  forall tr,
    sellOrders (exec tr (snd r)) !! Z.to_nat id = Some o /\
    (forall c' value fwd amt,
       exists e, fst (transact (fulfillSellOrder c' value fwd id amt) (exec tr (snd r)))
                 = Revert e) /\
    (forall c' value fwd ids amts prices, id ∈ ids ->
       exists e, fst (transact (fulfillBatchOrders c' value fwd ids amts prices)
                        (exec tr (snd r))) = Revert e).
Proof.
  intros Hr Hfloor r id o.
  pose proof (balance_nonneg s (sender c) (reachable_ledger_ok s Hr)) as Hbal.
  assert (Hallw : 0 <= allowed s (sender c) (this c)).
  { unfold allowed. destruct (_allowances s !! (sender c, this c)) as [v|] eqn:Hv;
      simpl; [|lia].
    eapply (allowances_nonneg s (reachable_book_ok s Hr)); exact Hv. }
  subst r. rewrite placeSellOrder_run.
  destruct (Z.ltb_spec p (FloorPricePerToken s)); [lia|].
  destruct (Z.ltb_spec (balance s (sender c)) 0); [lia|].
  destruct (Z.ltb_spec (allowed s (sender c) (this c)) 0); [lia|].
  cbn [fst snd]. split; [reflexivity|]. split; [reflexivity|].
  assert (Hnew : sellOrders
                   (add_event (SellOrderPlaced id (sender c) 0 p)
                      (upd_orders (fun l => l ++ [o]) s)) !! Z.to_nat id = Some o).
  { cbn [sellOrders add_event upd_orders]. subst id. rewrite Nat2Z.id.
    rewrite lookup_app_r by lia. rewrite Nat.sub_diag. reflexivity. }
  intros tr.
  pose proof (empty_order_exec tr _ _ o eq_refl Hnew) as Hstay.
  split; [exact Hstay|]. split.
  - intros c' value fwd amt.
    eapply empty_order_unfulfillable; [|exact Hstay]. reflexivity.
  - intros c' value fwd ids amts prices Hin.
    eapply empty_order_not_in_batch; [|exact Hstay | exact Hin]. reflexivity.
Qed.

Lemma zero_amount_order_stays_open_witness :
  fst (transact (placeSellOrder as_buyer 0 (10 ^ 7)) after_scenario) = Ok 1 /\
  exists e,
    fst (transact (fulfillSellOrder as_producer 0 accepting 1 1)
           (exec [(as_owner, call_mintCCT 4 5)]
              (snd (transact (placeSellOrder as_buyer 0 (10 ^ 7)) after_scenario))))
    = Revert e.
Proof.
  destruct (zero_amount_order_stays_open as_buyer (10 ^ 7) after_scenario
              after_scenario_reachable) as (H1 & _ & H2).
  - vm_compute. intro; discriminate.
  - split; [exact H1|].
    destruct (H2 [(as_owner, call_mintCCT 4 5)]) as (_ & H3 & _).
    exact (H3 as_producer 0 accepting 1).
Defined.

(** ** Validating a batch: [fulfillBatchOrders] *)

Lemma batch_validate_run ids amts prices j acc s id amt price :
  ids !! j = Some id -> amts !! j = Some amt -> prices !! j = Some price ->
  batch_validate ids amts prices j acc s =
    if Z.of_nat (length (sellOrders s)) <=? id then (Revert InvalidOrder, s)
    else match sellOrders s !! Z.to_nat id with
         | None => (Revert PanicIndex, s)
         | Some o =>
             if fulfilled o then (Revert OrderClosed, s)
             else if (amt <=? 0) || (amount o <? amt) then (Revert InvalidAmount, s)
             else if negb (price =? pricePerToken o) then (Revert PriceChanged, s)
             else if MAX_UINT256 <? amt * price then (Revert PanicOverflow, s)
             else if MAX_UINT256 <? acc + amt * price / SCALE
                  then (Revert PanicOverflow, s)
                  else (Ok (acc + amt * price / SCALE), s)
         end.
Proof.
  intros H1 H2 H3. unfold batch_validate, index, order_at. rewrite H1, H2, H3.
  tx_unfold. tx_eval.
  destruct (Z.ltb_spec id (Z.of_nat (length (sellOrders s)))),
    (Z.leb_spec (Z.of_nat (length (sellOrders s))) id); try lia; tx_eval; [|reflexivity].
  destruct (sellOrders s !! Z.to_nat id) as [o|]; [|reflexivity].
  destruct (fulfilled o); tx_eval; [reflexivity|].
  destruct (Z.ltb_spec 0 amt), (Z.leb_spec amt 0); try lia; tx_eval; [|reflexivity].
  destruct (Z.leb_spec amt (amount o)), (Z.ltb_spec (amount o) amt); try lia; tx_eval;
    [|reflexivity].
  destruct (price =? pricePerToken o); tx_eval; [|reflexivity].
  destruct (Z.leb_spec (amt * price) MAX_UINT256),
    (Z.ltb_spec MAX_UINT256 (amt * price)); try lia; tx_eval; [|reflexivity].
  change (SCALE =? 0) with false. tx_eval.
  destruct (Z.leb_spec (acc + amt * price / SCALE) MAX_UINT256),
    (Z.ltb_spec MAX_UINT256 (acc + amt * price / SCALE)); try lia; reflexivity.
Qed.

Lemma SCALE_pos : 0 < SCALE.
Proof. reflexivity. Qed.

(** The first pass run forwards, over a storage [s] whose orders hold
    unsigned prices and the three arrays of one batch. *)
Section ValidationPass.

Variable s : State.
Variables ids amts prices : list Z.
Hypothesis Hbook : book_ok s.

Lemma entry_cost_nonneg id amt price :
  entry_valid s id amt price -> 0 <= amt * price / SCALE.
Proof.
  intros (_ & o & Ho & _ & Hamt & ->).
  destruct (orders_wf s Hbook _ o Ho) as (_ & _ & Hp).
  apply Z.div_pos; [apply Z.mul_nonneg_nonneg; lia | apply SCALE_pos].
Qed.

Lemma entries_valid_tail i n :
  entries_valid s ids amts prices i (S n) -> entries_valid s ids amts prices (S i) n.
Proof. intros H j Hj. apply H. lia. Qed.

Lemma costs_from_nonneg n : forall i,
  entries_valid s ids amts prices i n -> 0 <= costs_from amts prices i n.
Proof.
  induction n as [|n IH]; intros i Hv; simpl; [lia|].
  destruct (Hv i ltac:(lia)) as (id & amt & price & _ & -> & -> & He & _). simpl.
  pose proof (entry_cost_nonneg id amt price He).
  pose proof (IH (S i) (entries_valid_tail _ _ Hv)). lia.
Qed.

Lemma batch_validate_valid j acc id amt price :
  ids !! j = Some id -> amts !! j = Some amt -> prices !! j = Some price ->
  entry_valid s id amt price -> amt * price <= MAX_UINT256 ->
  acc + amt * price / SCALE <= MAX_UINT256 ->
  batch_validate ids amts prices j acc s = (Ok (acc + amt * price / SCALE), s).
Proof.
  intros H1 H2 H3 (Hid & o & Ho & Hopen & Hamt & Hp) Hfit Hsum.
  rewrite (batch_validate_run ids amts prices j acc s id amt price H1 H2 H3).
  rewrite Ho, Hopen.
  destruct (Z.leb_spec (Z.of_nat (length (sellOrders s))) id); [lia|].
  destruct (Z.leb_spec amt 0); [lia|].
  destruct (Z.ltb_spec (amount o) amt); [lia|]. cbn [orb].
  destruct (Z.eqb_spec price (pricePerToken o)); [|contradiction]. cbn [negb].
  destruct (Z.ltb_spec MAX_UINT256 (amt * price)); [lia|].
  destruct (Z.ltb_spec MAX_UINT256 (acc + amt * price / SCALE)); [lia | reflexivity].
Qed.

(** All entries pass: the pass returns the accumulated cost. *)
Lemma validate_pass_run n : forall i acc,
  entries_valid s ids amts prices i n ->
  acc + costs_from amts prices i n <= MAX_UINT256 ->
  for_from n i acc (batch_validate ids amts prices) s
  = (Ok (acc + costs_from amts prices i n), s).
Proof.
  induction n as [|n IH]; intros i acc Hv Hsum; simpl.
  - unfold ret. f_equal. f_equal. lia.
  - pose proof (costs_from_nonneg n (S i) (entries_valid_tail _ _ Hv)) as Hrest.
    simpl in Hsum.
    destruct (Hv i ltac:(lia)) as (id & amt & price & H1 & H2 & H3 & He & Hfit).
    rewrite H2, H3 in *. simpl in *.
    unfold bind.
    rewrite (batch_validate_valid i acc id amt price) by (auto; lia).
    rewrite IH; [| apply entries_valid_tail; assumption | lia].
    f_equal. f_equal. lia.
Qed.

(** The entries before [k] pass and entry [k] carries a stale price: the
    pass stops there with [PriceChanged]. *)
Lemma validate_pass_price_changed n : forall i acc k id amt price o,
  (i <= k < i + n)%nat ->
  entries_valid s ids amts prices i (k - i) ->
  acc + costs_from amts prices i (k - i) <= MAX_UINT256 ->
  ids !! k = Some id -> amts !! k = Some amt -> prices !! k = Some price ->
  sellOrders s !! Z.to_nat id = Some o -> fulfilled o = false ->
  0 < amt <= amount o -> price <> pricePerToken o ->
  for_from n i acc (batch_validate ids amts prices) s = (Revert PriceChanged, s).
Proof.
  induction n as [|n IH];
    intros i acc k id amt price o Hk Hv Hsum H1 H2 H3 Ho Hopen Hamt Hp; [lia|].
  simpl. unfold bind. destruct (decide (k = i)) as [->|Hne].
  - rewrite (batch_validate_run ids amts prices i acc s id amt price H1 H2 H3).
    rewrite Ho, Hopen. pose proof (order_id_in_range _ _ _ Ho).
    destruct (Z.leb_spec (Z.of_nat (length (sellOrders s))) id); [lia|].
    destruct (Z.leb_spec amt 0); [lia|].
    destruct (Z.ltb_spec (amount o) amt); [lia|]. cbn [orb].
    destruct (Z.eqb_spec price (pricePerToken o)); [contradiction | reflexivity].
  - replace (k - i)%nat with (S (k - S i)) in Hv, Hsum by lia.
    pose proof (costs_from_nonneg _ (S i) (entries_valid_tail _ _ Hv)) as Hrest.
    simpl in Hsum.
    destruct (Hv i ltac:(lia)) as (id0 & amt0 & price0 & E1 & E2 & E3 & He & Hfit).
    rewrite E2, E3 in *. simpl in *.
    rewrite (batch_validate_valid i acc id0 amt0 price0) by (auto; lia).
    apply (IH (S i) _ k id amt price o); auto; try lia.
    apply entries_valid_tail; assumption.
Qed.

End ValidationPass.

Lemma two_orders_reachable : reachable after_two_orders.
Proof.
  exists 1, two_orders_scenario. split; [unfold is_address; lia|].
  split; [|reflexivity]. unfold two_orders_scenario.
  repeat (apply Forall_cons_2; [prove_valid |]). apply List.Forall_nil.
Qed.

(** C6, as stated, fails on the code: the checks of an entry run in order.
    Order 0 holds 10 units at price [1e18]; a batch asking 20 units of it
    at the stale price 5 fails [InvalidAmount], not [PriceChanged]. *)
Lemma stale_price_after_amount_check :
  sellOrders after_two_orders !! 0%nat = Some (mkOrder 3 10 (10 ^ 18) false) /\
  5 <> 10 ^ 18 /\
  fst (transact (fulfillBatchOrders as_buyer 0 accepting [0] [20] [5]) after_two_orders)
  = Revert InvalidAmount.
Proof.
  split; [vm_compute; reflexivity|]. split; [|vm_compute; reflexivity].
  intro; discriminate.
Qed.

(** C6, amended.  [fulfillBatchOrders] fails [EmptyBatch] on an empty
    order list; on a non-empty one it fails [LengthMismatch] when the
    three arrays differ in length.  With arrays of equal length, if the
    entries before position [k] pass every check (their costs adding up
    within 256 bits) and entry [k] names an open order with a valid
    amount but a submitted price that differs from the order's live
    price, it fails [PriceChanged]; if all entries pass and the payment
    sent differs from the accumulated total cost, it fails
    [IncorrectPayment].  In every failure case the storage (orders and
    balances) is what it was before the call. *)
Theorem batch_validation c value fwd ids amts prices s :
  reachable s ->
  let r := transact (fulfillBatchOrders c value fwd ids amts prices) s in
  let n := length ids in
  (ids = [] -> fst r = Revert EmptyBatch) /\
  (ids <> [] -> length amts <> n \/ length prices <> n ->
     fst r = Revert LengthMismatch) /\
  (length amts = n -> length prices = n ->
     forall k id amt price o, (k < n)%nat ->
       entries_valid s ids amts prices 0 k ->
       costs_from amts prices 0 k <= MAX_UINT256 ->
       ids !! k = Some id -> amts !! k = Some amt -> prices !! k = Some price ->
       sellOrders s !! Z.to_nat id = Some o -> fulfilled o = false ->
       0 < amt <= amount o -> price <> pricePerToken o ->
       fst r = Revert PriceChanged) /\
  (ids <> [] -> length amts = n -> length prices = n ->
     entries_valid s ids amts prices 0 n ->
     costs_from amts prices 0 n <= MAX_UINT256 ->
     value <> costs_from amts prices 0 n ->
     fst r = Revert IncorrectPayment) /\
  (forall e, fst r = Revert e -> snd r = s).
Proof.
  intros Hr r n.
  pose proof (reachable_status s Hr) as Hst.
  assert (Hb : book_ok (set_status true s))
    by (apply (book_ok_frame s); [reflexivity .. | apply reachable_book_ok, Hr]).
  split; [|split; [|split; [|split]]].
  - intros ->. subst r. unfold fulfillBatchOrders. tx_unfold. rewrite Hst. reflexivity.
  - intros Hne Hlen. subst r n. unfold fulfillBatchOrders. tx_unfold. rewrite Hst. tx_eval.
    destruct (Z.ltb_spec 0 (Z.of_nat (length ids))); tx_eval;
      [|destruct ids; [contradiction | simpl in *; lia]].
    destruct (Z.eqb_spec (Z.of_nat (length ids)) (Z.of_nat (length amts))); tx_eval;
      [|reflexivity].
    destruct (Z.eqb_spec (Z.of_nat (length ids)) (Z.of_nat (length prices))); tx_eval;
      [|reflexivity].
    lia.
  - intros Hla Hlp k id amt price o Hk Hv Hsum H1 H2 H3 Ho Hopen Hamt Hp.
    subst r n. unfold fulfillBatchOrders, for_range. tx_unfold. rewrite Hst. tx_eval.
    rewrite Hla, Hlp, Z.eqb_refl. tx_eval.
    destruct (Z.ltb_spec 0 (Z.of_nat (length ids))); [|lia]. tx_eval.
    rewrite (validate_pass_price_changed (set_status true s) ids amts prices Hb
               (length ids) 0%nat 0 k id amt price o);
      [reflexivity | lia | rewrite Nat.sub_0_r; exact Hv
      | rewrite Nat.sub_0_r; lia | assumption ..].
  - intros Hne Hla Hlp Hv Hsum Hpay.
    subst r n. unfold fulfillBatchOrders, for_range. tx_unfold. rewrite Hst. tx_eval.
    rewrite Hla, Hlp, Z.eqb_refl. tx_eval.
    destruct (Z.ltb_spec 0 (Z.of_nat (length ids)));
      [|destruct ids; [contradiction | simpl in *; lia]].
    tx_eval.
    rewrite (validate_pass_run (set_status true s) ids amts prices Hb (length ids) 0%nat 0);
      [| exact Hv | lia].
    tx_eval. rewrite Z.add_0_l.
    destruct (Z.eqb_spec (costs_from amts prices 0 (length ids)) value);
      [congruence | reflexivity].
  - intros e. apply transact_Revert.
Qed.

Lemma batch_validation_witness :
  fst (transact (fulfillBatchOrders as_buyer 20 accepting [0; 1] [10; 5]
                   [10 ^ 18; 3 * 10 ^ 18]) after_two_orders)
  = Revert PriceChanged.
Proof.
  destruct (batch_validation as_buyer 20 accepting [0; 1] [10; 5] [10 ^ 18; 3 * 10 ^ 18]
              after_two_orders two_orders_reachable) as (_ & _ & H & _).
  apply (H eq_refl eq_refl 1%nat 1 5 (3 * 10 ^ 18) (mkOrder 3 5 (2 * 10 ^ 18) false)).
  - simpl. lia.
  - intros j Hj. assert (j = 0%nat) as -> by lia.
    exists 0, 10, (10 ^ 18).
    split; [reflexivity|]. split; [reflexivity|]. split; [reflexivity|]. split.
    + split; [vm_compute; reflexivity|].
      exists (mkOrder 3 10 (10 ^ 18) false).
      split; [reflexivity|]. split; [reflexivity|]. split; [|reflexivity].
      vm_compute. split; [reflexivity | intro; discriminate].
    + vm_compute. intro; discriminate.
  - vm_compute. intro; discriminate.
  - reflexivity.
  - reflexivity.
  - reflexivity.
  - reflexivity.
  - reflexivity.
  - vm_compute. split; [reflexivity | intro; discriminate].
  - vm_compute. intro; discriminate.
Defined.

(** ** Failed settlements *)

(** The body of a batch has already rewritten the orders and moved the
    credits of both entries when the second payment is refused: the
    storage it stops in is not the one it started from. *)
Lemma batch_body_stops_half_way :
  fst (fulfillBatchOrders as_buyer 20 accepting_first [0; 1] [10; 5]
         [10 ^ 18; 2 * 10 ^ 18] after_two_orders)
  = Revert PaymentForwardingFailed /\
  sellOrders (snd (fulfillBatchOrders as_buyer 20 accepting_first [0; 1] [10; 5]
                     [10 ^ 18; 2 * 10 ^ 18] after_two_orders))
  = [mkOrder 3 0 (10 ^ 18) true; mkOrder 3 0 (2 * 10 ^ 18) true] /\
  balance (snd (fulfillBatchOrders as_buyer 20 accepting_first [0; 1] [10; 5]
                  [10 ^ 18; 2 * 10 ^ 18] after_two_orders)) 4 = 15.
Proof. vm_compute. repeat split. Qed.

Lemma batch_settle_forwarded c fwd ids amts prices j u0 s u s' :
  batch_settle c fwd ids amts prices j u0 s = (Ok u, s') ->
  exists a v, fwd j a v = true.
Proof. unfold batch_settle. intros H. tx_inv. eauto. Qed.

Lemma settle_pass_forwarded c fwd ids amts prices n : forall i u0 s u s',
  for_from n i u0 (batch_settle c fwd ids amts prices) s = (Ok u, s') ->
  forall j, (i <= j < i + n)%nat -> exists a v, fwd j a v = true.
Proof.
  induction n as [|n IH]; intros i u0 s u s' Hrun j Hj; [lia|].
  simpl in Hrun. apply bind_Ok in Hrun as (u1 & s1 & Hfirst & Hrest).
  destruct (decide (j = i)) as [->|Hne].
  - eapply batch_settle_forwarded; exact Hfirst.
  - apply (IH (S i) u1 s1 u s' Hrest). lia.
Qed.

(** C2.  Whatever makes a call of [fulfillSellOrder] or
    [fulfillBatchOrders] fail (a failed check, a panic, a refused payment
    forwarding), the storage after the call is the storage before it:
    every order's remaining amount and fulfilled flag and every balance
    are unchanged.  A refused forwarding does make the call fail, also
    when it is the one of the last order of a batch, so that no batch is
    left partially settled. *)
Theorem failed_settlement_changes_nothing c s :
  (forall value fwd id amt,
     let r := transact (fulfillSellOrder c value fwd id amt) s in
     (forall e, fst r = Revert e -> snd r = s) /\
     ((forall a v, fwd O a v = false) -> exists e, fst r = Revert e /\ snd r = s)) /\
  (forall value fwd ids amts prices,
     let r := transact (fulfillBatchOrders c value fwd ids amts prices) s in
     (forall e, fst r = Revert e -> snd r = s) /\
     (forall k, (k < length ids)%nat -> (forall a v, fwd k a v = false) ->
        exists e, fst r = Revert e /\ snd r = s)).
Proof.
  split.
  - intros value fwd id amt r. split; [intros e; apply transact_Revert|].
    intros Hrefuse. subst r.
    destruct (transact (fulfillSellOrder c value fwd id amt) s) as [[b|e] s'] eqn:Hrun.
    + exfalso. apply transact_Ok in Hrun. unfold_calls Hrun. tx_inv.
      match goal with H : fwd O _ _ = true |- _ => rewrite Hrefuse in H; discriminate H end.
    + exists e. split; [reflexivity|].
      change s' with (snd (Revert (A:=bool) e, s')). rewrite <- Hrun.
      apply (transact_Revert _ _ e). rewrite Hrun. reflexivity.
  - intros value fwd ids amts prices r. split; [intros e; apply transact_Revert|].
    intros k Hk Hrefuse. subst r.
    destruct (transact (fulfillBatchOrders c value fwd ids amts prices) s)
      as [[b|e] s'] eqn:Hrun.
    + exfalso. apply transact_Ok in Hrun.
      unfold fulfillBatchOrders, for_range in Hrun. tx_inv.
      match goal with
      | Hs : for_from _ _ _ (batch_settle _ _ _ _ _) _ = (Ok _, _) |- _ =>
          destruct (settle_pass_forwarded _ _ _ _ _ _ _ _ _ _ _ Hs k ltac:(lia))
            as (a & v & Hacc)
      end.
      rewrite Hrefuse in Hacc. discriminate Hacc.
    + exists e. split; [reflexivity|].
      change s' with (snd (Revert (A:=unit) e, s')). rewrite <- Hrun.
      apply (transact_Revert _ _ e). rewrite Hrun. reflexivity.
Qed.

Lemma failed_settlement_changes_nothing_witness :
  exists e,
    fst (transact (fulfillBatchOrders as_buyer 20 accepting_first [0; 1] [10; 5]
                     [10 ^ 18; 2 * 10 ^ 18]) after_two_orders) = Revert e /\
    snd (transact (fulfillBatchOrders as_buyer 20 accepting_first [0; 1] [10; 5]
                     [10 ^ 18; 2 * 10 ^ 18]) after_two_orders) = after_two_orders.
Proof.
  destruct (failed_settlement_changes_nothing as_buyer after_two_orders) as [_ H].
  destruct (H 20 accepting_first [0; 1] [10; 5] [10 ^ 18; 2 * 10 ^ 18]) as [_ H2].
  apply (H2 1%nat).
  - simpl. lia.
  - reflexivity.
Defined.

(** ** Meter records: [logSmartMeterData] *)

Lemma logSmartMeterData_run c producer t e s :
  transact (logSmartMeterData c producer t e) s =
    if negb (registered s (sender c)) then (Revert Unauthorized, s)
    else if e <=? 0 then (Revert InvalidAmount, s)
    else if negb (meter s producer t =? 0) then (Revert DuplicateAttestation, s)
    else (Ok true,
          add_event (SmartMeterDataLogged producer t e (sender c))
            (upd_meter <[(producer, t) := e]> s)).
Proof.
  unfold logSmartMeterData. tx_unfold.
  destruct (registered s (sender c)); tx_eval; [|reflexivity].
  destruct (Z.ltb_spec 0 e), (Z.leb_spec e 0); try lia; tx_eval; [|reflexivity].
  destruct (meter s producer t =? 0); reflexivity.
Qed.

Lemma attestation_rejected_while_positive c producer t e s :
  registered s (sender c) = true -> 0 < e -> meter s producer t <> 0 ->
  transact (logSmartMeterData c producer t e) s = (Revert DuplicateAttestation, s).
Proof.
  intros Hreg He Hm. rewrite logSmartMeterData_run, Hreg. cbn [negb].
  destruct (Z.leb_spec e 0); [lia|].
  destruct (Z.eqb_spec (meter s producer t) 0); [contradiction | reflexivity].
Qed.

Lemma meter_upd_same s k v : meter (upd_meter <[k := v]> s) (fst k) (snd k) = v.
Proof. destruct k. unfold meter. simpl. rewrite lookup_insert_eq. reflexivity. Qed.

Lemma meter_upd_other s p t p' t' v :
  (p, t) <> (p', t') -> meter (upd_meter <[(p, t) := v]> s) p' t' = meter s p' t'.
Proof. intros. unfold meter. simpl. rewrite lookup_insert_ne by assumption. reflexivity. Qed.

Lemma meter_step_while_positive ck s p t :
  0 < meter s p t -> meter (step ck s) p t <= meter s p t.
Proof.
  intros Hpos. destruct (step_cases ck s) as [->|[u Hrun]]; [lia|].
  generalize dependent (step ck s). intros s' Hrun.
  destruct ck as [c k]; simpl in *.
  destruct k as [d|d|r|a|pr|pr ts e|e ts|a pr|v fwd id a|v fwd ids amts prices
                |a v why|a|a v|to v|sp v|from to v|ow|];
    simpl in Hrun;
    try (unfold_calls Hrun; tx_inv; order_shapes; ledger_shapes;
         change (meter s p t <= meter s p t); lia).
  - (* logSmartMeterData *)
    unfold_calls Hrun. tx_inv. zbool.
    change (meter (upd_meter <[(pr, ts) := e]> s) p t <= meter s p t).
    destruct (decide ((pr, ts) = (p, t))) as [[= -> ->]|Hne]; [lia|].
    rewrite meter_upd_other by assumption. lia.
  - (* earnCarbonCredit *)
    unfold_calls Hrun. tx_inv. ledger_shapes. zbool.
    change (meter (upd_meter <[(sender c, ts) := meter s (sender c) ts - e]> s) p t
            <= meter s p t).
    destruct (decide ((sender c, ts) = (p, t))) as [[= <- <-]|Hne].
    + rewrite (meter_upd_same s (sender c, ts)). lia.
    + rewrite meter_upd_other by assumption. lia.
  - (* fulfillBatchOrders *)
    unfold fulfillBatchOrders in Hrun. tx_inv. batch_passes.
    repeat match goal with H : only_orders _ _ |- _ => rewrite H; clear H
                      | H : only_ledger _ _ |- _ => rewrite H; clear H end.
    change (meter s p t <= meter s p t). lia.
Qed.

(** C1 does not hold of the code.  The guard of [logSmartMeterData] tests
    the stored value against zero, and zero is also what a bucket holds
    once it was claimed in full.  After the attestation of 500 for
    (producer 3, bucket 7) and the claim of all 500, a second attestation
    of the same bucket by the device succeeds instead of failing
    [DuplicateAttestation]; the stored remaining value goes from 0 back
    up to 500; and the producer claims the bucket a second time, doubling
    the credits minted for it. *)
Theorem exhausted_bucket_is_attested_again :
  meter (exec (take 2 exhaustion_scenario) (deployed 1)) 3 7 = 500 /\
  meter after_exhaustion 3 7 = 0 /\
  fst (transact (logSmartMeterData as_device 3 7 500) after_exhaustion) = Ok true /\
  meter (snd (transact (logSmartMeterData as_device 3 7 500) after_exhaustion)) 3 7 = 500 /\
  balance after_exhaustion 3 = 5 * 10 ^ 18 /\
  balance (exec [(as_device, call_logSmartMeterData 3 7 500);
                 (as_producer, call_earnCarbonCredit 500 7)] after_exhaustion) 3
  = 10 * 10 ^ 18.
Proof. vm_compute. repeat split. Qed.

(** * Further properties of the contract *)

(** ** Administration *)

(** X1.  A call of an owner-only function ([registerDevice],
    [deregisterDevice], the three parameter setters, [OwnerburnCredits],
    [mintCCT]) by any caller other than the owner fails [Unauthorized] and
    leaves the storage as it was. *)
Theorem owner_only_calls_reject_others c k s :
  owner_only k = true -> sender c <> _owner s ->
  transact (run c k) s = (Revert Unauthorized, s).
Proof.
  intros Hk Hne. destruct k; try discriminate Hk; simpl;
    unfold registerDevice, deregisterDevice, changeEnergyToCreditRatio,
      changeGovtWallet, changeFloorPricePerToken, OwnerburnCredits, mintCCT;
    tx_unfold; destruct (Z.eqb_spec (sender c) (_owner s)); try contradiction;
    reflexivity.
Qed.

Lemma owner_only_calls_reject_others_witness :
  transact (run as_buyer (call_mintCCT 4 1000)) after_scenario
  = (Revert Unauthorized, after_scenario).
Proof.
  apply owner_only_calls_reject_others.
  - reflexivity.
  - vm_compute. intro; discriminate.
Defined.

Lemma registerDevice_run c d s :
  sender c = _owner s ->
  transact (registerDevice c d) s
  = (Ok tt, add_event (DeviceRegistered d) (upd_devices <[d := true]> s)).
Proof.
  intros Ho. unfold registerDevice. tx_unfold. rewrite Ho, Z.eqb_refl. reflexivity.
Qed.

Lemma deregisterDevice_run c d s :
  sender c = _owner s ->
  transact (deregisterDevice c d) s
  = (Ok tt, add_event (DeviceDeregistered d) (upd_devices <[d := false]> s)).
Proof.
  intros Ho. unfold deregisterDevice. tx_unfold. rewrite Ho, Z.eqb_refl. reflexivity.
Qed.

(** X2.  Registration round trip.  When the owner registers a device and
    then deregisters it, the device is allowed in between and refused
    afterwards, no other device's entry changes, and every attestation
    the deregistered device sends fails [Unauthorized]. *)
Theorem device_registration_round_trip c d s :
  sender c = _owner s ->
  let s1 := step (c, call_registerDevice d) s in
  let s2 := step (c, call_deregisterDevice d) s1 in
  registered s1 d = true /\
  (forall d', d' <> d -> registered s1 d' = registered s d') /\
  registered s2 d = false /\
  (forall d', d' <> d -> registered s2 d' = registered s d') /\
  (forall dev producer t e, sender dev = d ->
     transact (logSmartMeterData dev producer t e) s2 = (Revert Unauthorized, s2)).
Proof.
  intros Ho s1 s2.
  assert (E1 : s1 = add_event (DeviceRegistered d) (upd_devices <[d := true]> s)).
  { subst s1. unfold step. cbn [fst snd run]. rewrite registerDevice_run by assumption.
    reflexivity. }
  assert (E2 : s2 = add_event (DeviceDeregistered d) (upd_devices <[d := false]> s1)).
  { subst s2. unfold step. cbn [fst snd run]. rewrite deregisterDevice_run; [reflexivity|].
    rewrite E1. exact Ho. }
  assert (R2 : registered s2 d = false).
  { rewrite E2. unfold registered. simpl. rewrite lookup_insert_eq. reflexivity. }
  split; [|split; [|split; [|split]]].
  - rewrite E1. unfold registered. simpl. rewrite lookup_insert_eq. reflexivity.
  - intros d' Hd. rewrite E1. unfold registered. simpl.
    rewrite lookup_insert_ne by congruence. reflexivity.
  - exact R2.
  - intros d' Hd. rewrite E2, E1. unfold registered. simpl.
    rewrite !lookup_insert_ne by congruence. reflexivity.
  - intros dev producer t e Hdev. rewrite logSmartMeterData_run, Hdev, R2. reflexivity.
Qed.

Lemma device_registration_round_trip_witness :
  registered (step (as_owner, call_registerDevice 8) after_scenario) 8 = true /\
  registered (step (as_owner, call_deregisterDevice 8)
                (step (as_owner, call_registerDevice 8) after_scenario)) 8 = false.
Proof.
  destruct (device_registration_round_trip as_owner 8 after_scenario)
    as (H1 & _ & H3 & _).
  - reflexivity.
  - split; [exact H1 | exact H3].
Defined.

(** ** Meter records and claims *)






Lemma positive_quotient_divisor a r : 0 < a -> 0 < a / r -> 0 < r.
Proof.
  intros Ha Hq. destruct (Z.lt_trichotomy r 0) as [Hneg|[->|?]]; [|simpl|assumption].
  - pose proof (Z.div_mod a r ltac:(lia)). pose proof (Z.mod_neg_bound a r Hneg). nia.
  - rewrite Z.div_0_r in Hq. lia.
Qed.

Lemma div_split_bounds a b r :
  0 < r -> a / r + b / r <= (a + b) / r <= a / r + b / r + 1.
Proof.
  intros Hr.
  pose proof (Z.div_mod a r ltac:(lia)). pose proof (Z.mod_pos_bound a r Hr).
  pose proof (Z.div_mod b r ltac:(lia)). pose proof (Z.mod_pos_bound b r Hr).
  pose proof (Z.div_mod (a + b) r ltac:(lia)). pose proof (Z.mod_pos_bound (a + b) r Hr).
  nia.
Qed.

Lemma earnCarbonCredit_Ok c e t s credits s' :
  earnCarbonCredit c e t s = (Ok credits, s') ->
  0 < e <= meter s (sender c) t /\
  0 < ENERGY_TO_CREDIT_CONVERSION s /\
  credits = e * SCALE / ENERGY_TO_CREDIT_CONVERSION s /\
  0 < credits /\
  meter s' (sender c) t = meter s (sender c) t - e /\
  ENERGY_TO_CREDIT_CONVERSION s' = ENERGY_TO_CREDIT_CONVERSION s.
Proof.
  intros H. unfold earnCarbonCredit in H. tx_inv. ledger_shapes. zbool.
  assert (0 < ENERGY_TO_CREDIT_CONVERSION s).
  { apply (positive_quotient_divisor (e * SCALE)); [|assumption].
    pose proof SCALE_pos. nia. }
  repeat split; try assumption; try lia.
  apply (meter_upd_same s (sender c, t)).
Qed.

(** X5.  Splitting a claim never pays.  When a producer claims [e1] and
    then [e2] of one bucket, both claims succeeding, the two amounts
    together do not exceed what the bucket held, the bucket is decremented
    by [e1 + e2], and the credits minted by the two claims together are at
    most what one claim of [e1 + e2] mints, and at most one unit less. *)
Theorem split_claims_mint_no_more c e1 e2 t s c1 s1 c2 s2 :
  transact (earnCarbonCredit c e1 t) s = (Ok c1, s1) ->
  transact (earnCarbonCredit c e2 t) s1 = (Ok c2, s2) ->
  let ratio := ENERGY_TO_CREDIT_CONVERSION s in
  e1 + e2 <= meter s (sender c) t /\
  meter s2 (sender c) t = meter s (sender c) t - (e1 + e2) /\
  c1 + c2 <= (e1 + e2) * SCALE / ratio <= c1 + c2 + 1.
Proof.
  intros H1 H2 ratio.
  apply transact_Ok, earnCarbonCredit_Ok in H1 as (He1 & Hr & -> & _ & Hm1 & Hr1).
  apply transact_Ok, earnCarbonCredit_Ok in H2 as (He2 & _ & -> & _ & Hm2 & _).
  rewrite Hr1 in *. fold ratio in Hr |- *.
  split; [lia|]. split; [lia|].
  replace ((e1 + e2) * SCALE) with (e1 * SCALE + e2 * SCALE) by lia.
  apply div_split_bounds. exact Hr.
Qed.

Lemma split_claims_mint_no_more_witness :
  100 + 100 <= meter after_scenario 3 7 /\
  10 ^ 18 + 10 ^ 18 <= (100 + 100) * SCALE / ENERGY_TO_CREDIT_CONVERSION after_scenario.
Proof.
  destruct (split_claims_mint_no_more as_producer 100 100 7 after_scenario
              (10 ^ 18) (snd (transact (earnCarbonCredit as_producer 100 7) after_scenario))
              (10 ^ 18)
              (snd (transact (earnCarbonCredit as_producer 100 7)
                      (snd (transact (earnCarbonCredit as_producer 100 7) after_scenario)))))
    as (H1 & _ & H2 & _).
  - vm_compute. reflexivity.
  - vm_compute. reflexivity.
  - split; [exact H1 | exact H2].
Defined.

(** ** Purchases *)



Lemma revocation_reachable : reachable after_revocation.
Proof.
  exists 1, revoked_scenario. split; [unfold is_address; lia|].
  split; [|reflexivity]. unfold revoked_scenario, two_orders_scenario. simpl.
  repeat (apply Forall_cons_2; [prove_valid |]). apply List.Forall_nil.
Qed.


(** ** The order book over time *)

Lemma order_evolves_refl o : order_evolves o o.
Proof. unfold order_evolves. repeat split; auto; lia. Qed.

Lemma order_evolves_trans o1 o2 o3 :
  order_evolves o1 o2 -> order_evolves o2 o3 -> order_evolves o1 o3.
Proof.
  intros (A1 & A2 & A3 & A4) (B1 & B2 & B3 & B4).
  unfold order_evolves. repeat split; try congruence; try lia; auto.
Qed.

Lemma order_evolves_taken amt o : 0 <= amt -> order_evolves o (taken amt o).
Proof.
  intros Hamt. unfold order_evolves, taken. simpl. repeat split; try lia.
  intros ->. destruct (amount o - amt =? 0); reflexivity.
Qed.

Lemma book_evolves_refl s : book_evolves s s.
Proof. intros i o Hl. exists o. split; [exact Hl | apply order_evolves_refl]. Qed.

Lemma book_evolves_trans s1 s2 s3 :
  book_evolves s1 s2 -> book_evolves s2 s3 -> book_evolves s1 s3.
Proof.
  intros H12 H23 i o Hl. destruct (H12 i o Hl) as (o2 & Hl2 & E12).
  destruct (H23 i o2 Hl2) as (o3 & Hl3 & E23).
  exists o3. split; [exact Hl3 | eapply order_evolves_trans; eassumption].
Qed.

Lemma book_evolves_same s s' : sellOrders s' = sellOrders s -> book_evolves s s'.
Proof. intros E i o Hl. exists o. rewrite E. split; [exact Hl | apply order_evolves_refl]. Qed.

Lemma book_evolves_taken s j o amt :
  sellOrders s !! j = Some o -> 0 <= amt ->
  book_evolves s (upd_orders <[j := taken amt o]> s).
Proof.
  intros Hj Hamt i o1 Hl. cbn [sellOrders upd_orders].
  destruct (decide (j = i)) as [->|Hne].
  - assert (o1 = o) by congruence. subst.
    exists (taken amt o). split; [|apply order_evolves_taken; assumption].
    apply list_lookup_insert_eq. eapply lookup_lt_Some; exact Hl.
  - exists o1. rewrite list_lookup_insert_ne by assumption.
    split; [exact Hl | apply order_evolves_refl].
Qed.

Lemma validated_amounts_positive ids amts prices n i acc s a s' :
  for_from n i acc (batch_validate ids amts prices) s = (Ok a, s') ->
  forall j amt, (i <= j < i + n)%nat -> amts !! j = Some amt -> 0 < amt.
Proof.
  intros Hrun j amt Hj Hl.
  destruct (validate_pass_entries _ _ _ _ _ _ _ _ _ Hrun j Hj)
    as (id & amt' & price & _ & Hl' & _ & _ & o & _ & _ & Hamt & _).
  assert (amt' = amt) by congruence. subst. lia.
Qed.

Lemma batch_mutate_evolves ids amts j u0 s u s' :
  (forall amt, amts !! j = Some amt -> 0 < amt) ->
  batch_mutate ids amts j u0 s = (Ok u, s') -> book_evolves s s'.
Proof.
  unfold batch_mutate. intros Hpos H. tx_inv. order_shapes.
  apply book_evolves_taken; [assumption|].
  match goal with Hl : amts !! j = Some ?a |- _ => specialize (Hpos a Hl) end. lia.
Qed.

Lemma book_evolves_step ck s : book_evolves s (step ck s).
Proof.
  destruct (step_cases ck s) as [->|[u Hrun]]; [apply book_evolves_refl|].
  generalize dependent (step ck s). intros s' Hrun.
  destruct ck as [c k]; simpl in *.
  destruct k as [d|d|r|a|p|p t e|e t|a p|v fwd id a|v fwd ids amts prices
                |a v why|a|a v|to v|sp v|from to v|ow|];
    simpl in Hrun;
    try (unfold_calls Hrun; tx_inv; order_shapes; ledger_shapes;
         apply book_evolves_same; reflexivity).
  - (* placeSellOrder *)
    unfold_calls Hrun. tx_inv. intros i o Hl. exists o.
    split; [|apply order_evolves_refl].
    cbn [sellOrders add_event upd_orders]. apply lookup_app_l_Some. exact Hl.
  - (* fulfillSellOrder *)
    unfold_calls Hrun. tx_inv. order_shapes. ledger_shapes. zbool.
    eapply book_evolves_trans; [|apply book_evolves_same; reflexivity].
    match goal with
    | Hl : sellOrders (set_status true s) !! ?j = Some ?o, Hle : ?amt <= amount ?o |- _ =>
        apply (book_evolves_trans s (upd_orders <[j := taken amt o]> s));
          [apply book_evolves_taken; [exact Hl | lia]
          | apply book_evolves_same; reflexivity]
    end.
  - (* fulfillBatchOrders *)
    unfold fulfillBatchOrders, for_range in Hrun. tx_inv.
    match goal with
    | Hv : for_from _ _ _ (batch_validate _ _ _) _ = _ |- _ =>
        pose proof (validated_amounts_positive _ _ _ _ _ _ _ _ _ Hv) as Hpos;
        apply validate_pass_pure in Hv; subst
    end.
    match goal with
    | Hs : for_from _ _ _ (batch_settle _ _ _ _ _) _ = (Ok _, _) |- _ =>
        apply settle_pass_only_ledger in Hs
    end.
    match goal with
    | Hm : for_from _ _ _ (batch_mutate _ _) _ = (Ok _, ?s2) |- _ =>
        assert (Hev : book_evolves s s2)
    end.
    { match goal with
      | Hm : for_from _ _ _ (batch_mutate _ _) _ = (Ok _, _) |- _ =>
          eapply (for_from_keeps (book_evolves s)); [| exact Hm |]
      end.
      - intros j accj sj aj sj' Hj Hb Hsj.
        eapply book_evolves_trans; [exact Hsj|].
        eapply batch_mutate_evolves; [|exact Hb]. intros amt Hl. eapply Hpos; eauto.
      - apply book_evolves_same. reflexivity. }
    eapply book_evolves_trans; [exact Hev|].
    apply book_evolves_same.
    match goal with Hs : only_ledger _ _ |- _ => rewrite Hs end. reflexivity.
Qed.

(** X8.  The order array is append-only.  After any sequence of calls
    every order is still found under its id, with the same seller and the
    same price, a remaining amount that has not grown and a fulfilled
    flag that was not taken back; in particular the array never
    shrinks. *)
Theorem order_book_append_only tr : forall s,
  (forall i o, sellOrders s !! i = Some o ->
   exists o', sellOrders (exec tr s) !! i = Some o' /\
              seller o' = seller o /\ pricePerToken o' = pricePerToken o /\
              amount o' <= amount o /\ (fulfilled o = true -> fulfilled o' = true)) /\
  (length (sellOrders s) <= length (sellOrders (exec tr s)))%nat.
Proof.
  assert (Hall : forall s, book_evolves s (exec tr s)).
  { induction tr as [|ck tr IH]; intros s; simpl; [apply book_evolves_refl|].
    eapply book_evolves_trans; [apply book_evolves_step | apply IH]. }
  intros s. split; [exact (Hall s)|].
  destruct (sellOrders s) as [|o0 l] eqn:E using rev_ind; [simpl; lia|].
  destruct (Hall s (length l) o0) as (o' & Hl & _).
  { rewrite E. rewrite lookup_app_r by lia. rewrite Nat.sub_diag. reflexivity. }
  apply lookup_lt_Some in Hl. rewrite length_app. simpl. lia.
Qed.

Lemma order_book_append_only_witness :
  exists o',
    sellOrders (exec [(as_buyer, call_fulfillSellOrder 4 accepting 0 4)] after_two_orders)
      !! 0%nat = Some o' /\
    seller o' = 3 /\ pricePerToken o' = 10 ^ 18 /\ amount o' <= 10.
Proof.
  destruct (order_book_append_only
              [(as_buyer, call_fulfillSellOrder 4 accepting 0 4)] after_two_orders)
    as [H _].
  destruct (H 0%nat (mkOrder 3 10 (10 ^ 18) false)) as (o' & H1 & H2 & H3 & H4 & _).
  - reflexivity.
  - exists o'. split; [exact H1|]. split; [exact H2|]. split; [exact H3|exact H4].
Defined.

Lemma closed_orders_empty_frame s s' :
  sellOrders s' = sellOrders s -> closed_orders_empty s -> closed_orders_empty s'.
Proof. intros E Hc i o Hl. rewrite E in Hl. eauto. Qed.

Lemma closed_orders_empty_taken s j o amt :
  closed_orders_empty s -> sellOrders s !! j = Some o -> 0 < amt <= amount o ->
  closed_orders_empty (upd_orders <[j := taken amt o]> s).
Proof.
  intros Hc Hj Hamt i o1 Hl Hf. cbn [sellOrders upd_orders] in Hl.
  destruct (decide (j = i)) as [<-|Hne].
  - rewrite list_lookup_insert_eq in Hl by (eapply lookup_lt_Some; exact Hj).
    injection Hl as <-. unfold taken in *. simpl in *.
    destruct (Z.eqb_spec (amount o - amt) 0); [assumption|].
    pose proof (Hc _ _ Hj Hf). lia.
  - rewrite list_lookup_insert_ne in Hl by assumption. eauto.
Qed.

Lemma closed_orders_empty_step ck s :
  closed_orders_empty s -> closed_orders_empty (step ck s).
Proof.
  intros Hc. destruct (step_cases ck s) as [->|[u Hrun]]; [assumption|].
  generalize dependent (step ck s). intros s' Hrun.
  destruct ck as [c k]; simpl in *.
  destruct k as [d|d|r|a|p|p t e|e t|a p|v fwd id a|v fwd ids amts prices
                |a v why|a|a v|to v|sp v|from to v|ow|];
    simpl in Hrun;
    try (unfold_calls Hrun; tx_inv; order_shapes; ledger_shapes; exact Hc).
  - (* placeSellOrder *)
    unfold_calls Hrun. tx_inv. intros i o Hl Hf.
    cbn [sellOrders add_event upd_orders] in Hl.
    apply lookup_app_Some in Hl as [Hl|[_ Hl]]; [eauto|].
    apply list_lookup_singleton_Some in Hl as [_ <-]. discriminate Hf.
  - (* fulfillSellOrder *)
    unfold_calls Hrun. tx_inv. order_shapes. ledger_shapes. zbool.
    match goal with
    | Hl : sellOrders (set_status true s) !! ?j = Some ?o, Hle : ?amt <= amount ?o |- _ =>
        apply (closed_orders_empty_frame (upd_orders <[j := taken amt o]> s));
          [reflexivity | apply closed_orders_empty_taken; [exact Hc | exact Hl | lia]]
    end.
  - (* fulfillBatchOrders *)
    unfold fulfillBatchOrders, for_range in Hrun. tx_inv.
    match goal with
    | Hv : for_from _ _ _ (batch_validate _ _ _) _ = _ |- _ =>
        pose proof (validated_amounts_positive _ _ _ _ _ _ _ _ _ Hv) as Hpos;
        apply validate_pass_pure in Hv; subst
    end.
    match goal with
    | Hs : for_from _ _ _ (batch_settle _ _ _ _ _) _ = (Ok _, _) |- _ =>
        apply settle_pass_only_ledger in Hs; rewrite Hs
    end.
    match goal with
    | Hm : for_from _ _ _ (batch_mutate _ _) _ = (Ok _, ?s2) |- _ =>
        apply (closed_orders_empty_frame s2); [reflexivity|];
        eapply (for_from_keeps closed_orders_empty); [| exact Hm | exact Hc]
    end.
    intros j accj sj aj sj' Hj Hb Hsj. unfold batch_mutate in Hb. tx_inv. order_shapes.
    match goal with
    | Hcur : sellOrders sj !! _ = Some ?oc, Hle : ?amt <= amount ?oc,
      Ha : amts !! j = Some ?amt |- _ =>
        pose proof (Hpos _ _ Hj Ha);
        apply closed_orders_empty_taken; [exact Hsj | exact Hcur | lia]
    end.
Qed.

Lemma closed_orders_empty_exec tr : forall s,
  closed_orders_empty s -> closed_orders_empty (exec tr s).
Proof.
  induction tr as [|ck tr IH]; intros s Hc; simpl; [assumption|].
  apply IH, closed_orders_empty_step, Hc.
Qed.

Lemma reachable_closed_orders_empty s : reachable s -> closed_orders_empty s.
Proof.
  intros (d & tr & _ & _ & ->). apply closed_orders_empty_exec.
  intros i o Hl. simpl in Hl. rewrite lookup_nil in Hl. discriminate.
Qed.

(** X7.  Fulfilled is terminal.  In every reachable storage an order
    marked fulfilled has nothing left; whatever is called afterwards, it
    stays exactly as it is, and every [fulfillSellOrder] on it fails
    [OrderClosed]. *)
Theorem fulfilled_orders_are_final s i o :
  reachable s -> sellOrders s !! i = Some o -> fulfilled o = true ->
  amount o = 0 /\
  forall tr,
    sellOrders (exec tr s) !! i = Some o /\
    forall c value fwd amt,
      transact (fulfillSellOrder c value fwd (Z.of_nat i) amt) (exec tr s)
      = (Revert OrderClosed, exec tr s).
Proof.
  intros Hr Hl Hf.
  pose proof (reachable_closed_orders_empty s Hr i o Hl Hf) as Hzero.
  split; [exact Hzero|]. intros tr.
  pose proof (empty_order_exec tr s i o Hzero Hl) as Hstay.
  split; [exact Hstay|]. intros c value fwd amt.
  rewrite (fulfillSellOrder_run c value fwd (Z.of_nat i) amt (exec tr s) o).
  - cbv zeta. rewrite Hf. reflexivity.
  - rewrite status_exec. apply reachable_status, Hr.
  - rewrite Nat2Z.id. exact Hstay.
Qed.

Lemma fulfilled_orders_are_final_witness :
  transact (fulfillSellOrder as_buyer 2 accepting 0 1)
    (exec [(as_owner, call_mintCCT 3 1000)] after_scenario)
  = (Revert OrderClosed, exec [(as_owner, call_mintCCT 3 1000)] after_scenario).
Proof.
  destruct (fulfilled_orders_are_final after_scenario 0%nat
              (mkOrder 3 0 (2 * 10 ^ 18) true) after_scenario_reachable) as [_ H].
  - reflexivity.
  - reflexivity.
  - destruct (H [(as_owner, call_mintCCT 3 1000)]) as [_ H2].
    exact (H2 as_buyer 2 accepting 1).
Defined.

(** ** Batch purchases *)




Lemma single_entry_batch_run c value fwd id amt price s o :
  _status s = false ->
  sellOrders s !! Z.to_nat id = Some o ->
  transact (fulfillBatchOrders c value fwd [id] [amt] [price]) s =
    let total := amt * price / SCALE in
    if fulfilled o then (Revert OrderClosed, s)
    else if (amt <=? 0) || (amount o <? amt) then (Revert InvalidAmount, s)
    else if negb (price =? pricePerToken o) then (Revert PriceChanged, s)
    else if MAX_UINT256 <? amt * price then (Revert PanicOverflow, s)
    else if MAX_UINT256 <? total then (Revert PanicOverflow, s)
    else if negb (total =? value) then (Revert IncorrectPayment, s)
    else
      match _transfer (seller o) (sender c) amt
              (upd_orders <[Z.to_nat id := taken amt o]> (set_status true s)) with
      | (Ok _, s2) =>
          if fwd O (seller o) total then
            (Ok tt,
             set_status false
               (add_event (BatchOrdersFulfilled (sender c) [id] total)
                  (add_event (SellOrderFulfilled id (sender c) amt total) s2)))
          else (Revert PaymentForwardingFailed, s)
      | (Revert e, _) => (Revert e, s)
      end.
Proof.
  intros Hst Hl. pose proof (order_id_in_range _ _ _ Hl) as Hid.
  pose proof (lookup_lt_Some _ _ _ Hl) as Hlt.
  unfold fulfillBatchOrders, for_range. cbn [length for_from].
  unfold batch_mutate, batch_settle, index, order_at. cbn [lookup list_lookup].
  tx_unfold. rewrite Hst.
  change (Z.of_nat 1) with 1. change (0 <? 1) with true. change (1 =? 1) with true.
  cbn -[MAX_UINT256 SCALE Z.mul Z.div Z.add Z.sub Z.leb Z.ltb Z.eqb Z.of_nat Z.to_nat
        wrap balance meter allowed registered lookup insert
        _transfer _mint _burn take_from_order taken batch_validate].
  rewrite (batch_validate_run [id] [amt] [price] 0 0 _ id amt price)
    by reflexivity.
  rewrite Z.add_0_l. cbn [sellOrders set_status].
  destruct (Z.leb_spec (Z.of_nat (length (sellOrders s))) id); [lia|].
  rewrite Hl. destruct (fulfilled o); [reflexivity|].
  destruct ((amt <=? 0) || (amount o <? amt)) eqn:Hamt; [reflexivity|].
  apply orb_false_iff in Hamt as [Ha1 Ha2]. zbool.
  destruct (price =? pricePerToken o); [|reflexivity]. cbn [negb].
  destruct (Z.ltb_spec MAX_UINT256 (amt * price)); [reflexivity|].
  destruct (Z.ltb_spec MAX_UINT256 (amt * price / SCALE)); [reflexivity|].
  tx_eval.
  destruct (amt * price / SCALE =? value); tx_eval; [|reflexivity].
  rewrite (take_from_order_run id amt (set_status true s) o) by exact Hl.
  destruct (Z.leb_spec amt (amount o)); [|lia]. tx_eval.
  rewrite list_lookup_insert_eq by assumption. tx_eval.
  destruct (Z.leb_spec (amt * price) MAX_UINT256); [|lia]. tx_eval.
  change (SCALE =? 0) with false. tx_eval.
  change (seller (taken amt o)) with (seller o).
  destruct (_transfer (seller o) (sender c) amt _) as [[u|e] s2]; [|reflexivity].
  tx_eval.
  destruct (fwd O (seller o) (amt * price / SCALE)); reflexivity.
Qed.

Lemma scaled_cost_fits a p : a * p <= MAX_UINT256 -> a * p / SCALE <= MAX_UINT256.
Proof.
  intros H. pose proof SCALE_pos as Hs.
  destruct (Z.le_gt_cases 0 (a * p)) as [Hnn|Hneg].
  - pose proof (Z.div_le_upper_bound (a * p) SCALE (a * p) Hs) as Hd. nia.
  - pose proof (Z.div_lt_upper_bound (a * p) SCALE 0 Hs) as Hd.
    assert (a * p / SCALE < 0) by (apply Hd; lia).
    assert (0 <= MAX_UINT256) by (vm_compute; intro; discriminate). lia.
Qed.

(** X10.  A batch of one entry is a single purchase.  Whenever the
    seller holds the amount asked, [fulfillBatchOrders] called with one
    order, one amount and the order's price fails exactly when
    [fulfillSellOrder] fails on that order and amount, with the same
    error, and otherwise leaves the storage the single purchase leaves,
    with one more [BatchOrdersFulfilled] event. *)
Theorem single_entry_batch_agrees c value fwd id amt s o :
  _status s = false -> sellOrders s !! Z.to_nat id = Some o ->
  amt <= balance s (seller o) ->
  transact (fulfillBatchOrders c value fwd [id] [amt] [pricePerToken o]) s =
    match transact (fulfillSellOrder c value fwd id amt) s with
    | (Ok _, s') =>
        (Ok tt, add_event (BatchOrdersFulfilled (sender c) [id] value) s')
    | (Revert e, s') => (Revert e, s')
    end.
Proof.
  intros Hst Hl Hbal.
  rewrite (single_entry_batch_run c value fwd id amt (pricePerToken o) s o Hst Hl).
  rewrite (fulfillSellOrder_run c value fwd id amt s o Hst Hl).
  cbv zeta. rewrite Z.eqb_refl. cbn [negb].
  destruct (fulfilled o); [reflexivity|].
  destruct ((amt <=? 0) || (amount o <? amt)); [reflexivity|].
  destruct (Z.ltb_spec MAX_UINT256 (amt * pricePerToken o)) as [|Hfit]; [reflexivity|].
  pose proof (scaled_cost_fits _ _ Hfit).
  destruct (Z.ltb_spec MAX_UINT256 (amt * pricePerToken o / SCALE)); [lia|].
  rewrite (Z.eqb_sym (amt * pricePerToken o / SCALE) value).
  destruct (Z.eqb_spec value (amt * pricePerToken o / SCALE)) as [->|]; [|reflexivity].
  cbn [negb].
  destruct (Z.ltb_spec (balance s (seller o)) amt); [lia|].
  destruct (_transfer (seller o) (sender c) amt _) as [[u|e] s2]; [|reflexivity].
  destruct (fwd O (seller o) _); reflexivity.
Qed.

Lemma single_entry_batch_agrees_witness :
  transact (fulfillBatchOrders as_buyer 4 accepting [0] [4] [10 ^ 18]) after_two_orders =
    match transact (fulfillSellOrder as_buyer 4 accepting 0 4) after_two_orders with
    | (Ok _, s') => (Ok tt, add_event (BatchOrdersFulfilled 4 [0] 4) s')
    | (Revert e, s') => (Revert e, s')
    end.
Proof.
  apply (single_entry_batch_agrees as_buyer 4 accepting 0 4 after_two_orders
           (mkOrder 3 10 (10 ^ 18) false)).
  - reflexivity.
  - reflexivity.
  - vm_compute. intro; discriminate.
Defined.

(** X11.  The batch has no seller-balance check of its own.  On a
    reachable storage, for an open order, a valid amount and the exact
    payment, when the seller holds less than the amount asked
    [fulfillSellOrder] fails with [SellerUnderfunded], while the batch of
    that one entry passes its validation and fails in the token transfer,
    with the ledger's [InsufficientBalance]; both leave the storage as it
    was. *)
Theorem batch_skips_balance_check c value fwd id amt s o :
  reachable s -> valid_ctx c ->
  sellOrders s !! Z.to_nat id = Some o -> fulfilled o = false ->
  0 < amt <= amount o -> amt * pricePerToken o <= MAX_UINT256 ->
  value = amt * pricePerToken o / SCALE ->
  balance s (seller o) < amt ->
  transact (fulfillSellOrder c value fwd id amt) s = (Revert SellerUnderfunded, s) /\
  transact (fulfillBatchOrders c value fwd [id] [amt] [pricePerToken o]) s
  = (Revert InsufficientBalance, s).
Proof.
  intros Hr (_ & _ & Hsender) Hl Hopen Hamt Hfit Hval Hbal.
  pose proof (reachable_status s Hr) as Hst.
  destruct (orders_wf s (reachable_book_ok s Hr) _ o Hl) as (Hseller & _ & _).
  pose proof (scaled_cost_fits _ _ Hfit).
  rewrite (single_entry_batch_run c value fwd id amt (pricePerToken o) s o Hst Hl).
  rewrite (fulfillSellOrder_run c value fwd id amt s o Hst Hl).
  cbv zeta. rewrite Hopen, <- Hval, !Z.eqb_refl. cbn [negb].
  destruct (Z.leb_spec amt 0); [lia|].
  destruct (Z.ltb_spec (amount o) amt); [lia|]. cbn [orb].
  destruct (Z.ltb_spec MAX_UINT256 (amt * pricePerToken o)); [lia|].
  destruct (Z.ltb_spec MAX_UINT256 value); [lia|].
  destruct (Z.ltb_spec (balance s (seller o)) amt); [|lia].
  split; [reflexivity|].
  rewrite _transfer_run by assumption.
  change (balance (upd_orders _ (set_status true s)) (seller o))
    with (balance s (seller o)).
  destruct (Z.leb_spec amt (balance s (seller o))); [lia|reflexivity].
Qed.

Lemma batch_skips_balance_check_witness :
  balance after_dust_order 3 = 500 /\
  transact (fulfillSellOrder as_buyer 0 accepting 0 600) after_dust_order
  = (Revert SellerUnderfunded, after_dust_order) /\
  transact (fulfillBatchOrders as_buyer 0 accepting [0] [600] [10 ^ 7]) after_dust_order
  = (Revert InsufficientBalance, after_dust_order).
Proof.
  split; [reflexivity|].
  apply (batch_skips_balance_check as_buyer 0 accepting 0 600 after_dust_order
           (mkOrder 3 1000 (10 ^ 7) false) dust_order_reachable).
  - unfold valid_ctx, is_address. simpl. lia.
  - reflexivity.
  - reflexivity.
  - simpl. lia.
  - vm_compute. intro; discriminate.
  - reflexivity.
  - vm_compute. reflexivity.
Defined.

(** X12.  Validation looks at each entry alone.  A batch that names one
    open order twice, with two amounts that are each within the order's
    remaining amount but together exceed it, passes the first pass and the
    payment check, and fails in the second pass with the arithmetic panic
    of [order.amount -= amountToBuy]; the storage is left as it was. *)
Theorem repeated_order_overdrawn c value fwd id a1 a2 s o :
  _status s = false ->
  sellOrders s !! Z.to_nat id = Some o -> fulfilled o = false ->
  0 < a1 <= amount o -> 0 < a2 <= amount o -> amount o < a1 + a2 ->
  a1 * pricePerToken o <= MAX_UINT256 -> a2 * pricePerToken o <= MAX_UINT256 ->
  a1 * pricePerToken o / SCALE + a2 * pricePerToken o / SCALE <= MAX_UINT256 ->
  value = a1 * pricePerToken o / SCALE + a2 * pricePerToken o / SCALE ->
  transact (fulfillBatchOrders c value fwd [id; id] [a1; a2]
              [pricePerToken o; pricePerToken o]) s
  = (Revert PanicOverflow, s).
Proof.
  intros Hst Hl Hopen Ha1 Ha2 Hsum Hf1 Hf2 Hfit ->.
  pose proof (order_id_in_range _ _ _ Hl) as Hid.
  pose proof (lookup_lt_Some _ _ _ Hl) as Hlt.
  pose proof (scaled_cost_fits _ _ Hf1) as Hc1.
  set (p := pricePerToken o) in *.
  assert (Hv : forall j acc a st, sellOrders st = sellOrders s ->
             [a1; a2] !! j = Some a -> 0 < a <= amount o -> a * p <= MAX_UINT256 ->
             acc + a * p / SCALE <= MAX_UINT256 ->
             batch_validate [id; id] [a1; a2] [p; p] j acc st
             = (Ok (acc + a * p / SCALE), st)).
  { intros j acc a st Est Hj Ha Hfa Hfacc.
    assert (Hj2 : (j < 2)%nat) by (apply lookup_lt_Some in Hj; exact Hj).
    rewrite (batch_validate_run [id; id] [a1; a2] [p; p] j acc st id a p);
      [| destruct j as [|[|j]]; [reflexivity | reflexivity | simpl in Hj2; lia]
       | exact Hj
       | destruct j as [|[|j]]; [reflexivity | reflexivity | simpl in Hj2; lia]].
    rewrite Est, Hl, Hopen. subst p. rewrite Z.eqb_refl. cbn [negb].
    destruct (Z.leb_spec (Z.of_nat (length (sellOrders s))) id); [lia|].
    destruct (Z.leb_spec a 0); [lia|].
    destruct (Z.ltb_spec (amount o) a); [lia|]. cbn [orb].
    destruct (Z.ltb_spec MAX_UINT256 (a * pricePerToken o)); [lia|].
    destruct (Z.ltb_spec MAX_UINT256 (acc + a * pricePerToken o / SCALE)); [lia|].
    reflexivity. }
  unfold fulfillBatchOrders, for_range. cbn [length for_from].
  unfold batch_mutate, index. cbn [lookup list_lookup].
  tx_unfold. rewrite Hst.
  change (Z.of_nat 2) with 2. change (0 <? 2) with true. change (2 =? 2) with true.
  cbn -[MAX_UINT256 SCALE Z.mul Z.div Z.add Z.sub Z.leb Z.ltb Z.eqb Z.of_nat Z.to_nat
        wrap balance meter allowed registered lookup insert
        _transfer _mint _burn take_from_order taken batch_validate batch_settle].
  rewrite (Hv 0%nat 0 a1) by (first [reflexivity | assumption | lia]).
  rewrite (Hv 1%nat (0 + a1 * p / SCALE) a2) by (first [reflexivity | assumption | lia]).
  rewrite Z.add_0_l, Z.eqb_refl.
  rewrite (take_from_order_run id a1 (set_status true s) o) by exact Hl.
  destruct (Z.leb_spec a1 (amount o)); [|lia].
  rewrite (take_from_order_run id a2 _ (taken a1 o))
    by (cbn [sellOrders upd_orders set_status]; apply list_lookup_insert_eq; assumption).
  assert (Hrem : amount (taken a1 o) = amount o - a1).
  { unfold taken. destruct (amount o - a1 =? 0); reflexivity. }
  rewrite Hrem. destruct (Z.leb_spec a2 (amount o - a1)); [lia|]. reflexivity.
Qed.

Lemma repeated_order_overdrawn_witness :
  transact (fulfillBatchOrders as_buyer 12 accepting [0; 0] [6; 6] [10 ^ 18; 10 ^ 18])
    after_two_orders
  = (Revert PanicOverflow, after_two_orders).
Proof.
  apply (repeated_order_overdrawn as_buyer 12 accepting 0 6 6 after_two_orders
           (mkOrder 3 10 (10 ^ 18) false)).
  - reflexivity.
  - reflexivity.
  - reflexivity.
  - simpl. lia.
  - simpl. lia.
  - simpl. lia.
  - vm_compute. intro; discriminate.
  - vm_compute. intro; discriminate.
  - vm_compute. intro; discriminate.
  - vm_compute. reflexivity.
Defined.

(** ** Supply *)





Lemma mintCCT_run c account amt s :
  transact (mintCCT c account amt) s =
    if negb (sender c =? _owner s) then (Revert Unauthorized, s)
    else if account =? 0 then (Revert InvalidRecipient, s)
    else if MAX_UINT256 <? _totalSupply s + amt then (Revert PanicOverflow, s)
    else (Ok tt,
          add_event (CCTMintedByOwner account amt)
            (add_event (Transfer 0 account amt)
               (upd_balances <[account := wrap (balance s account + amt)]>
                  (set_totalSupply (_totalSupply s + amt) s)))).
Proof.
  unfold mintCCT. tx_unfold.
  destruct (sender c =? _owner s); [|reflexivity]. tx_eval.
  destruct (Z.eqb_spec account 0); [reflexivity|]. tx_eval.
  rewrite _mint_run by assumption.
  destruct (Z.leb_spec (_totalSupply s + amt) MAX_UINT256),
    (Z.ltb_spec MAX_UINT256 (_totalSupply s + amt)); try lia; reflexivity.
Qed.

(** X14.  The owner's mint.  On a reachable storage [mintCCT] fails
    [Unauthorized] iff the caller is not the owner, [InvalidRecipient] iff
    the owner names the zero account, and with the arithmetic panic iff
    the supply would pass [2^256 - 1]; in every other case it succeeds for
    any amount, zero included: the account's balance and the total supply
    grow by the amount, no other balance changes, and the log gains a
    [Transfer] from the zero account and a [CCTMintedByOwner]. *)
Theorem mintCCT_cases c account amt s :
  reachable s -> is_uint256 amt ->
  let r := transact (mintCCT c account amt) s in
  (fst r = Revert Unauthorized <-> sender c <> _owner s) /\
  (fst r = Revert InvalidRecipient <-> sender c = _owner s /\ account = 0) /\
  (fst r = Revert PanicOverflow <->
     sender c = _owner s /\ account <> 0 /\ MAX_UINT256 < _totalSupply s + amt) /\
  (sender c = _owner s -> account <> 0 -> _totalSupply s + amt <= MAX_UINT256 ->
     fst r = Ok tt /\
     balance (snd r) account = balance s account + amt /\
     _totalSupply (snd r) = _totalSupply s + amt /\
     (forall a, a <> account -> balance (snd r) a = balance s a) /\
     events (snd r)
     = CCTMintedByOwner account amt :: Transfer 0 account amt :: events s).
Proof.
  intros Hr [Hamt _] r.
  pose proof (reachable_ledger_ok s Hr) as Hok.
  pose proof (balance_nonneg s account Hok) as Hb.
  subst r. rewrite mintCCT_run.
  destruct (Z.eqb_spec (sender c) (_owner s)) as [Ho|Ho]; cbn [negb];
    [destruct (Z.eqb_spec account 0) as [Ha|Ha];
       [|destruct (Z.ltb_spec MAX_UINT256 (_totalSupply s + amt))]|]; cbn [fst snd].
  - repeat split; try discriminate; try tauto; try lia.
  - repeat split; try discriminate; try tauto; try lia.
  - split; [split; [discriminate | tauto]|].
    split; [split; [discriminate | tauto]|].
    split; [split; [discriminate | lia]|].
    intros _ _ _. rewrite wrap_small by lia.
    split; [reflexivity|]. split; [|split; [|split]].
    + unfold balance at 1. simpl. rewrite lookup_insert_eq. reflexivity.
    + reflexivity.
    + intros a Hne. unfold balance. simpl.
      rewrite lookup_insert_ne by congruence. reflexivity.
    + reflexivity.
  - repeat split; try discriminate; try tauto; try lia.
Qed.

Lemma mintCCT_cases_witness :
  fst (transact (mintCCT as_owner 4 0) after_two_orders) = Ok tt /\
  fst (transact (mintCCT as_owner 4 (2 ^ 256 - 1)) after_two_orders)
  = Revert PanicOverflow.
Proof.
  split.
  - destruct (mintCCT_cases as_owner 4 0 after_two_orders two_orders_reachable)
      as (_ & _ & _ & H).
    + unfold is_uint256, MAX_UINT256. lia.
    + destruct H as [H _]; [reflexivity | intro; discriminate
                           | vm_compute; intro; discriminate | exact H].
  - destruct (mintCCT_cases as_owner 4 (2 ^ 256 - 1) after_two_orders two_orders_reachable)
      as (_ & _ & H & _).
    + unfold is_uint256, MAX_UINT256. lia.
    + apply H. split; [reflexivity|]. split; [intro; discriminate | reflexivity].
Defined.

Lemma OwnerburnCredits_run c account amt why s :
  transact (OwnerburnCredits c account amt why) s =
    if negb (sender c =? _owner s) then (Revert Unauthorized, s)
    else if Z.of_nat (String.length why) <=? 0 then (Revert MissingReason, s)
    else if account =? 0 then (Revert InvalidRecipient, s)
    else if balance s account <? amt then (Revert InsufficientBalance, s)
    else (Ok tt,
          add_event (CreditsBurnedWithReason account amt why)
            (add_event (Transfer account 0 amt)
               (set_totalSupply (wrap (_totalSupply s - amt))
                  (upd_balances <[account := wrap (balance s account - amt)]> s)))).
Proof.
  unfold OwnerburnCredits. tx_unfold.
  destruct (sender c =? _owner s); [|reflexivity]. tx_eval.
  destruct (Z.ltb_spec 0 (Z.of_nat (String.length why))),
    (Z.leb_spec (Z.of_nat (String.length why)) 0); try lia; tx_eval; [|reflexivity].
  destruct (Z.eqb_spec account 0) as [->|Ha]; [reflexivity|].
  rewrite _burn_run by assumption.
  destruct (Z.leb_spec amt (balance s account)),
    (Z.ltb_spec (balance s account) amt); try lia; reflexivity.
Qed.

Lemma empty_reason why : Z.of_nat (String.length why) <= 0 <-> why = String.EmptyString.
Proof.
  destruct why; simpl; split; try reflexivity; try discriminate; lia.
Qed.

(** X15.  The owner's burn.  On a reachable storage [OwnerburnCredits]
    fails [Unauthorized] iff the caller is not the owner, [MissingReason]
    iff the owner gives the empty string, [InvalidRecipient] iff the
    account is then the zero account, and [InsufficientBalance] iff the
    account then holds less than the amount.  Otherwise it succeeds
    whatever the account has approved: the account's balance and the
    total supply drop by the amount, other balances and every allowance
    stay, and the log gains a [Transfer] to the zero account and a
    [CreditsBurnedWithReason] carrying the reason. *)
Theorem OwnerburnCredits_cases c account amt why s :
  reachable s -> is_uint256 amt ->
  let r := transact (OwnerburnCredits c account amt why) s in
  (fst r = Revert Unauthorized <-> sender c <> _owner s) /\
  (fst r = Revert MissingReason <-> sender c = _owner s /\ why = String.EmptyString) /\
  (fst r = Revert InvalidRecipient <->
     sender c = _owner s /\ why <> String.EmptyString /\ account = 0) /\
  (fst r = Revert InsufficientBalance <->
     sender c = _owner s /\ why <> String.EmptyString /\ account <> 0 /\
     balance s account < amt) /\
  (sender c = _owner s -> why <> String.EmptyString -> account <> 0 ->
   amt <= balance s account ->
     fst r = Ok tt /\
     balance (snd r) account = balance s account - amt /\
     _totalSupply (snd r) = _totalSupply s - amt /\
     (forall a, a <> account -> balance (snd r) a = balance s a) /\
     _allowances (snd r) = _allowances s /\
     events (snd r)
     = CreditsBurnedWithReason account amt why :: Transfer account 0 amt :: events s).
Proof.
  intros Hr [Hamt _] r.
  pose proof (reachable_ledger_ok s Hr) as Hok.
  pose proof (balance_nonneg s account Hok) as Hb.
  pose proof (supply_max s Hok) as Hmax.
  pose proof (empty_reason why) as Hwhy.
  subst r. rewrite OwnerburnCredits_run.
  destruct (Z.eqb_spec (sender c) (_owner s)) as [Ho|Ho]; cbn [negb];
    [destruct (Z.leb_spec (Z.of_nat (String.length why)) 0) as [Hw|Hw];
      [|destruct (Z.eqb_spec account 0) as [Ha|Ha];
        [|destruct (Z.ltb_spec (balance s account) amt)]]|]; cbn [fst snd].
  - assert (why = String.EmptyString) by tauto.
    repeat split; try discriminate; try tauto; try lia.
  - assert (why <> String.EmptyString) by (intros E; apply Hwhy in E; lia).
    repeat split; try discriminate; try tauto; try lia.
  - assert (why <> String.EmptyString) by (intros E; apply Hwhy in E; lia).
    repeat split; try discriminate; try tauto; try lia.
  - assert (why <> String.EmptyString) by (intros E; apply Hwhy in E; lia).
    split; [split; [discriminate | tauto]|].
    split; [split; [discriminate | tauto]|].
    split; [split; [discriminate | tauto]|].
    split; [split; [discriminate | lia]|].
    intros _ _ _ _. rewrite !wrap_small by lia.
    split; [reflexivity|]. split; [|split; [|split; [|split]]].
    + unfold balance at 1. simpl. rewrite lookup_insert_eq. reflexivity.
    + reflexivity.
    + intros a Hne. unfold balance. simpl.
      rewrite lookup_insert_ne by congruence. reflexivity.
    + reflexivity.
    + reflexivity.
  - repeat split; try discriminate; try tauto; try lia.
Qed.

Lemma OwnerburnCredits_cases_witness :
  allowed after_revocation 3 1 = 0 /\
  fst (transact (OwnerburnCredits as_owner 3 40 "audit") after_revocation) = Ok tt /\
  balance (snd (transact (OwnerburnCredits as_owner 3 40 "audit") after_revocation)) 3
  = balance after_revocation 3 - 40.
Proof.
  split; [reflexivity|].
  destruct (OwnerburnCredits_cases as_owner 3 40 "audit" after_revocation
              revocation_reachable) as (_ & _ & _ & _ & H).
  - unfold is_uint256, MAX_UINT256. lia.
  - destruct H as (H1 & H2 & _).
    + reflexivity.
    + discriminate.
    + intro; discriminate.
    + vm_compute. intro; discriminate.
    + split; [exact H1 | exact H2].
Defined.

(** ** Parameters and placement *)

Lemma changeEnergyToCreditRatio_run c r s :
  sender c = _owner s ->
  transact (changeEnergyToCreditRatio c r) s = (Ok tt, set_ratio r s).
Proof.
  intros Ho. unfold changeEnergyToCreditRatio. tx_unfold. rewrite Ho, Z.eqb_refl.
  reflexivity.
Qed.


(** X16.  A new ratio applies to energy already recorded, and the ratio
    zero stops every claim.  [changeEnergyToCreditRatio] accepts any value
    from the owner, zero included, changes nothing but the ratio and logs
    no event.  A claim made afterwards on a record attested before the
    change is converted at the new ratio; when the new ratio is zero, a
    claim that passes the checks on the record fails with the panic of a
    division by zero, and the storage is left as it was. *)
Theorem ratio_change_applies_to_recorded_energy c r p e t s :
  sender c = _owner s -> sender p <> 0 ->
  0 < e <= meter s (sender p) t -> e * SCALE <= MAX_UINT256 ->
  let s1 := snd (transact (changeEnergyToCreditRatio c r) s) in
  fst (transact (changeEnergyToCreditRatio c r) s) = Ok tt /\
  s1 = set_ratio r s /\ events s1 = events s /\
  (r = 0 ->
     transact (earnCarbonCredit p e t) s1 = (Revert PanicDivisionByZero, s1)) /\
  (r <> 0 -> 0 < e * SCALE / r -> _totalSupply s + e * SCALE / r <= MAX_UINT256 ->
     fst (transact (earnCarbonCredit p e t) s1) = Ok (e * SCALE / r) /\
     meter (snd (transact (earnCarbonCredit p e t) s1)) (sender p) t
     = meter s (sender p) t - e).
Proof.
  intros Ho Hp He Hfit s1. subst s1.
  rewrite changeEnergyToCreditRatio_run by assumption. cbn [fst snd].
  split; [reflexivity|]. split; [reflexivity|]. split; [reflexivity|].
  rewrite earnCarbonCredit_run by assumption. cbv zeta.
  change (meter (set_ratio r s) (sender p) t) with (meter s (sender p) t).
  change (ENERGY_TO_CREDIT_CONVERSION (set_ratio r s)) with r.
  change (_totalSupply (set_ratio r s)) with (_totalSupply s).
  destruct (Z.leb_spec e 0); [lia|].
  destruct (Z.leb_spec (meter s (sender p) t) 0); [lia|].
  destruct (Z.ltb_spec (meter s (sender p) t) e); [lia|].
  destruct (Z.ltb_spec MAX_UINT256 (e * SCALE)); [lia|].
  split.
  - intros ->. reflexivity.
  - intros Hr Hpos Hsup.
    destruct (Z.eqb_spec r 0); [contradiction|].
    destruct (Z.leb_spec (e * SCALE / r) 0); [lia|].
    destruct (Z.ltb_spec MAX_UINT256 (_totalSupply s + e * SCALE / r)); [lia|].
    cbn [fst snd]. split; [reflexivity|].
    unfold meter at 1. simpl. rewrite lookup_insert_eq. reflexivity.
Qed.

Lemma ratio_change_applies_to_recorded_energy_witness :
  transact (earnCarbonCredit as_producer 100 7)
    (snd (transact (changeEnergyToCreditRatio as_owner 0)
            (exec (take 2 exhaustion_scenario) (deployed 1))))
  = (Revert PanicDivisionByZero,
     snd (transact (changeEnergyToCreditRatio as_owner 0)
            (exec (take 2 exhaustion_scenario) (deployed 1)))).
Proof.
  destruct (ratio_change_applies_to_recorded_energy as_owner 0 as_producer 100 7
              (exec (take 2 exhaustion_scenario) (deployed 1)))
    as (_ & _ & _ & H & _).
  - reflexivity.
  - intro; discriminate.
  - vm_compute. split; [reflexivity | intro; discriminate].
  - vm_compute. intro; discriminate.
  - apply H. reflexivity.
Defined.




(** X18.  Placing an order reserves nothing.  When [placeSellOrder]
    passes its three checks once, the same call passes them any number of
    times in a row: each call appends one more open order of the same
    seller, amount and price, and balances and allowances stay what they
    were, so the orders open on one balance may add up to more than the
    seller holds. *)
Theorem placing_reserves_nothing c a p n : forall s,
  FloorPricePerToken s <= p -> a <= balance s (sender c) ->
  a <= allowed s (sender c) (this c) ->
  sellOrders (exec (repeat (c, call_placeSellOrder a p) n) s)
  = sellOrders s ++ repeat (mkOrder (sender c) a p false) n /\
  _balances (exec (repeat (c, call_placeSellOrder a p) n) s) = _balances s /\
  _allowances (exec (repeat (c, call_placeSellOrder a p) n) s) = _allowances s.
Proof.
  induction n as [|n IH]; intros s Hp Hb Ha.
  - simpl. rewrite app_nil_r. auto.
  - change (exec (repeat (c, call_placeSellOrder a p) (S n)) s)
      with (exec (repeat (c, call_placeSellOrder a p) n)
              (step (c, call_placeSellOrder a p) s)).
    assert (Hstep : step (c, call_placeSellOrder a p) s
                    = add_event (SellOrderPlaced (Z.of_nat (length (sellOrders s)))
                                   (sender c) a p)
                        (upd_orders (fun l => l ++ [mkOrder (sender c) a p false]) s)).
    { unfold step. cbn [fst snd run].
      pose proof (placeSellOrder_run c a p s) as Hrun.
      destruct (Z.ltb_spec p (FloorPricePerToken s)); [lia|].
      destruct (Z.ltb_spec (balance s (sender c)) a); [lia|].
      destruct (Z.ltb_spec (allowed s (sender c) (this c)) a); [lia|].
      unfold transact in Hrun |- *. unfold bind at 1.
      destruct (placeSellOrder c a p s) as [[x|err] sx]; [|discriminate Hrun].
      injection Hrun as _ <-. reflexivity. }
    rewrite Hstep.
    destruct (IH (add_event (SellOrderPlaced (Z.of_nat (length (sellOrders s)))
                               (sender c) a p)
                    (upd_orders (fun l => l ++ [mkOrder (sender c) a p false]) s)))
      as (H1 & H2 & H3); [assumption ..|].
    rewrite H1, H2, H3. cbn [sellOrders _balances _allowances upd_orders add_event repeat].
    rewrite <- app_assoc. auto.
Qed.

Lemma placing_reserves_nothing_witness :
  balance after_two_orders 3 = 100 /\
  sellOrders (exec (repeat (as_producer, call_placeSellOrder 100 (10 ^ 18)) 3)
                after_two_orders)
  = sellOrders after_two_orders ++ repeat (mkOrder 3 100 (10 ^ 18) false) 3.
Proof.
  split; [reflexivity|].
  destruct (placing_reserves_nothing as_producer 100 (10 ^ 18) 3 after_two_orders)
    as (H & _).
  - vm_compute. intro; discriminate.
  - vm_compute. intro; discriminate.
  - vm_compute. intro; discriminate.
  - exact H.
Defined.

Ltac decide_row := try discriminate; try tauto; try congruence; try lia.

Lemma fulfillSellOrder_out_of_range c value fwd id amt s :
  _status s = false -> Z.of_nat (length (sellOrders s)) <= id ->
  transact (fulfillSellOrder c value fwd id amt) s = (Revert InvalidOrder, s).
Proof.
  intros Hst Hid. unfold fulfillSellOrder. tx_unfold. rewrite Hst. tx_eval.
  destruct (Z.ltb_spec id (Z.of_nat (length (sellOrders s)))); [lia | reflexivity].
Qed.

(** X19.  The decision table of a purchase.  On a reachable storage, for
    a well-formed caller, [fulfillSellOrder] fails [InvalidOrder] iff the
    id is not below the length of the order array.  For an id in range,
    its outcome is the first that applies of: [OrderClosed] on a
    fulfilled order; [InvalidAmount] on an amount that is zero or above
    the order's remaining amount; the arithmetic panic when
    [amount * price] passes 256 bits; [IncorrectPayment] unless the value
    sent is [amount * price / 1e18]; [SellerUnderfunded] when the seller
    holds less than the amount; [PaymentForwardingFailed] when the seller
    does not accept the payment; and success otherwise.  No other outcome
    exists: the allowance given to the contract plays no part. *)
Theorem fulfillSellOrder_cases c value fwd id amt s :
  reachable s -> valid_ctx c -> is_uint256 id -> is_uint256 amt ->
  let r := transact (fulfillSellOrder c value fwd id amt) s in
  (fst r = Revert InvalidOrder <-> Z.of_nat (length (sellOrders s)) <= id) /\
  (forall o, sellOrders s !! Z.to_nat id = Some o ->
     let total := amt * pricePerToken o / SCALE in
     let open := fulfilled o = false in
     let in_stock := 0 < amt <= amount o in
     let fits := amt * pricePerToken o <= MAX_UINT256 in
     (fst r = Revert OrderClosed <-> fulfilled o = true) /\
     (fst r = Revert InvalidAmount <-> open /\ (amt = 0 \/ amount o < amt)) /\
     (fst r = Revert PanicOverflow <->
        open /\ in_stock /\ MAX_UINT256 < amt * pricePerToken o) /\
     (fst r = Revert IncorrectPayment <-> open /\ in_stock /\ fits /\ value <> total) /\
     (fst r = Revert SellerUnderfunded <->
        open /\ in_stock /\ fits /\ value = total /\ balance s (seller o) < amt) /\
     (fst r = Revert PaymentForwardingFailed <->
        open /\ in_stock /\ fits /\ value = total /\ amt <= balance s (seller o) /\
        fwd O (seller o) value = false) /\
     (fst r = Ok true <->
        open /\ in_stock /\ fits /\ value = total /\ amt <= balance s (seller o) /\
        fwd O (seller o) value = true)).
Proof.
  intros Hr (_ & _ & Hsender) [Hid _] [Hamt _] r.
  pose proof (reachable_status s Hr) as Hst.
  destruct (Z.le_gt_cases (Z.of_nat (length (sellOrders s))) id) as [Hout|Hin].
  - subst r. rewrite fulfillSellOrder_out_of_range by assumption. cbn [fst].
    split; [tauto|]. intros o Hl. apply lookup_lt_Some in Hl. lia.
  - assert (Hlt : (Z.to_nat id < length (sellOrders s))%nat) by lia.
    destruct (lookup_lt_is_Some_2 _ _ Hlt) as [o Hl].
    destruct (orders_wf s (reachable_book_ok s Hr) _ o Hl) as (Hseller & _ & _).
    assert (Hrun := fulfillSellOrder_run c value fwd id amt s o Hst Hl).
    cbv zeta in Hrun. fold r in Hrun.
    assert (Hmove : forall s1, balance s1 (seller o) = balance s (seller o) ->
              amt <= balance s (seller o) ->
              exists s2, _transfer (seller o) (sender c) amt s1 = (Ok tt, s2)).
    { intros s1 Hb1 Hle. rewrite _transfer_run by assumption. rewrite Hb1.
      destruct (Z.leb_spec amt (balance s (seller o))); [eauto | lia]. }
    assert (Htable :
      fst r =
        if fulfilled o then Revert OrderClosed
        else if (amt <=? 0) || (amount o <? amt) then Revert InvalidAmount
        else if MAX_UINT256 <? amt * pricePerToken o then Revert PanicOverflow
        else if negb (value =? amt * pricePerToken o / SCALE) then Revert IncorrectPayment
        else if balance s (seller o) <? amt then Revert SellerUnderfunded
        else if fwd O (seller o) value then Ok true
        else Revert PaymentForwardingFailed).
    { rewrite Hrun.
      destruct (fulfilled o); [reflexivity|].
      destruct ((amt <=? 0) || (amount o <? amt)); [reflexivity|].
      destruct (MAX_UINT256 <? amt * pricePerToken o); [reflexivity|].
      destruct (negb (value =? amt * pricePerToken o / SCALE)); [reflexivity|].
      destruct (Z.ltb_spec (balance s (seller o)) amt); [reflexivity|].
      destruct (Hmove (upd_orders <[Z.to_nat id:=taken amt o]> (set_status true s)))
        as [s2 ->]; [reflexivity | lia |].
      destruct (fwd O (seller o) value); reflexivity. }
    clear Hrun Hmove. split.
    + rewrite Htable. split; [|lia].
      destruct (fulfilled o); [discriminate|].
      destruct ((amt <=? 0) || (amount o <? amt)); [discriminate|].
      destruct (MAX_UINT256 <? amt * pricePerToken o); [discriminate|].
      destruct (negb (value =? amt * pricePerToken o / SCALE)); [discriminate|].
      destruct (balance s (seller o) <? amt); [discriminate|].
      destruct (fwd O (seller o) value); discriminate.
    + intros o' Hl'. rewrite Hl in Hl'. injection Hl' as <-.
      intros total open in_stock fits. subst total open in_stock fits.
      rewrite Htable. clear Htable.
      destruct (fulfilled o);
        [repeat (split; intros); decide_row|].
      destruct (Z.leb_spec amt 0); cbn [orb];
        [repeat (split; intros); decide_row|].
      destruct (Z.ltb_spec (amount o) amt);
        [repeat (split; intros); decide_row|].
      destruct (Z.ltb_spec MAX_UINT256 (amt * pricePerToken o));
        [repeat (split; intros); decide_row|].
      destruct (Z.eqb_spec value (amt * pricePerToken o / SCALE)); cbn [negb];
        [|repeat (split; intros); decide_row].
      destruct (Z.ltb_spec (balance s (seller o)) amt);
        [repeat (split; intros); decide_row|].
      destruct (fwd O (seller o) value) eqn:Hfwd;
        repeat (split; intros); decide_row.
Qed.

Lemma fulfillSellOrder_cases_witness :
  allowed after_revocation 3 999 = 0 /\
  fst (transact (fulfillSellOrder as_buyer 10 accepting 0 10) after_revocation) = Ok true /\
  fst (transact (fulfillSellOrder as_buyer 10 rejecting 0 10) after_revocation)
  = Revert PaymentForwardingFailed.
Proof.
  split; [reflexivity|]. split.
  - destruct (fulfillSellOrder_cases as_buyer 10 accepting 0 10 after_revocation
                revocation_reachable) as [_ H].
    + unfold valid_ctx, is_address. simpl. lia.
    + unfold is_uint256, MAX_UINT256. lia.
    + unfold is_uint256, MAX_UINT256. lia.
    + destruct (H (mkOrder 3 10 (10 ^ 18) false)) as (_ & _ & _ & _ & _ & _ & Hok);
        [reflexivity|].
      apply Hok. split; [reflexivity|]. split; [simpl; lia|].
      split; [vm_compute; intro; discriminate|]. split; [reflexivity|].
      split; [vm_compute; intro; discriminate | reflexivity].
  - destruct (fulfillSellOrder_cases as_buyer 10 rejecting 0 10 after_revocation
                revocation_reachable) as [_ H].
    + unfold valid_ctx, is_address. simpl. lia.
    + unfold is_uint256, MAX_UINT256. lia.
    + unfold is_uint256, MAX_UINT256. lia.
    + destruct (H (mkOrder 3 10 (10 ^ 18) false)) as (_ & _ & _ & _ & _ & Hno & _);
        [reflexivity|].
      apply Hno. split; [reflexivity|]. split; [simpl; lia|].
      split; [vm_compute; intro; discriminate|]. split; [reflexivity|].
      split; [vm_compute; intro; discriminate | reflexivity].
Defined.

(** ** The government wallet *)

















(** ** Who can move credits out of an account *)










(** ** Who consumes recorded energy *)


